(** * I2WebP converter: the metadata core of [converter_jpg_to_webp.py]

    A shallow embedding of the EXIF sanitizer ([clean_exif_data]), the
    timestamp resolver ([get_creation_datetime_from_exif]), the colour-mode
    normalisation of [convert_image_to_webp] and the JSON-safe conversion
    ([convert_bytes_for_json]), with the properties the specification
    states about them.

    The model follows the Python source:
    - values are the Python values the code tells apart with [isinstance];
      a dictionary is the list of its items in insertion order, read and
      updated as Python does ([dict_get], [dict_set]);
    - a statement that may raise returns a [result]; the [try]/[except]
      blocks of the source are the matches on [Raise];
    - the builtins the code calls (the UTF-8 codec with its error modes,
      [strip], [hex], [str]) are functions one can run;
    - each [for] loop is a recursive function over the items that threads
      the dictionary being built;
    - what the source leaves to the libraries it calls is a parameter of
      the functions that use it: the EXIF loader, the conversion of an
      image to a mode, the comparison of an object of another type with
      an integer and the rendering of floats and containers as text. *)

From Stdlib Require Import ZArith NArith List Bool Lia String Ascii.
From Stdlib Require Import Strings.Byte.
From Stdlib Require Import DecimalString SpecFloat.
Import ListNotations.

Set Warnings "-register-all".

(** ** Python values *)

Module Py.

(** A [str] is a sequence of code points (0 .. 0x10FFFF, surrogates
    included, as in Python); a [bytes] object is a sequence of bytes. *)
Definition pystr := list N.
Definition pybytes := list byte.

(** Text literals: the code points of a Rocq string (one per character). *)
Definition text (s : string) : pystr :=
  List.map N_of_ascii (list_ascii_of_string s).

Definition bytes_of (s : string) : pybytes := list_byte_of_string s.

(** Dictionary keys.  The dictionaries this program handles are keyed by
    integers (EXIF tag ids) and by text (IFD group names, the names of the
    decoder's info entries). *)
Inductive pykey : Type :=
| KInt (z : Z)
| KStr (s : pystr).

(** The values the program inspects with [isinstance].  A dictionary is
    the list of its items in insertion order; [PObject] is an object of
    any other type, given by the text [str()] renders it as (what its
    comparison with an integer gives is a parameter of the functions that
    compare). *)
Inductive pyval : Type :=
| PNone
| PBool (b : bool)
| PInt (z : Z)
| PFloat (f : spec_float)
| PStr (s : pystr)
| PBytes (b : pybytes)
| PTuple (l : list pyval)
| PList (l : list pyval)
| PDict (d : list (pykey * pyval))
| PObject (s : pystr).

Definition pydict := list (pykey * pyval).

(** Exceptions raised by the builtins the program calls. *)
Inductive exn : Type :=
| UnicodeEncodeError
| UnicodeDecodeError
| AttributeError
| TypeError
| ValueError
| IndexError
| KeyError.

Inductive result (A : Type) : Type :=
| Ok (a : A)
| Raise (e : exn).

Arguments Ok {A} a.
Arguments Raise {A} e.

Definition bind {A B} (m : result A) (k : A -> result B) : result B :=
  match m with
  | Ok a => k a
  | Raise e => Raise e
  end.

Definition is_ok {A} (m : result A) : bool :=
  match m with Ok _ => true | Raise _ => false end.

Notation "x <- m ;; k" := (bind m (fun x => k))
  (at level 61, m at next level, right associativity).

(** *** Induction over nested values *)

Section pyval_induction.
Variable P : pyval -> Prop.
Hypothesis HNone : P PNone.
Hypothesis HBool : forall b, P (PBool b).
Hypothesis HInt : forall z, P (PInt z).
Hypothesis HFloat : forall f, P (PFloat f).
Hypothesis HStr : forall s, P (PStr s).
Hypothesis HBytes : forall b, P (PBytes b).
Hypothesis HTuple : forall l, Forall P l -> P (PTuple l).
Hypothesis HList : forall l, Forall P l -> P (PList l).
Hypothesis HDict : forall d, Forall (fun kv => P (snd kv)) d -> P (PDict d).
Hypothesis HObject : forall s, P (PObject s).

Fixpoint pyval_nested_ind (v : pyval) : P v :=
  match v with
  | PNone => HNone
  | PBool b => HBool b
  | PInt z => HInt z
  | PFloat f => HFloat f
  | PStr s => HStr s
  | PBytes b => HBytes b
  | PTuple l =>
      HTuple l ((fix items (l : list pyval) : Forall P l :=
                 match l with
                 | [] => Forall_nil P
                 | x :: r => Forall_cons x (pyval_nested_ind x) (items r)
                 end) l)
  | PList l =>
      HList l ((fix items (l : list pyval) : Forall P l :=
                match l with
                | [] => Forall_nil P
                | x :: r => Forall_cons x (pyval_nested_ind x) (items r)
                end) l)
  | PDict d =>
      HDict d ((fix items (d : pydict) : Forall (fun kv => P (snd kv)) d :=
                match d with
                | [] => Forall_nil _
                | kv :: r =>
                    Forall_cons (P := fun kv => P (snd kv)) kv
                      (pyval_nested_ind (snd kv)) (items r)
                end) d)
  | PObject s => HObject s
  end.
End pyval_induction.

(** *** Dictionaries *)

Definition key_eqb (a b : pykey) : bool :=
  match a, b with
  | KInt x, KInt y => Z.eqb x y
  | KStr s, KStr t => if list_eq_dec N.eq_dec s t then true else false
  | _, _ => false
  end.

(** [d[k]] when the key is present. *)
Fixpoint dict_get (d : pydict) (k : pykey) : option pyval :=
  match d with
  | [] => None
  | (k', v) :: r => if key_eqb k' k then Some v else dict_get r k
  end.

(** [k in d]. *)
Definition dict_mem (d : pydict) (k : pykey) : bool :=
  match dict_get d k with Some _ => true | None => false end.

(** [d[k] = v]: an existing key keeps its position and takes the new
    value, a new key goes last. *)
Fixpoint dict_set (d : pydict) (k : pykey) (v : pyval) : pydict :=
  match d with
  | [] => [(k, v)]
  | (k', v') :: r =>
      if key_eqb k' k then (k', v) :: r else (k', v') :: dict_set r k v
  end.

(** [{k: v for k, v in items}]. *)
Definition dict_of_items (items : list (pykey * pyval)) : pydict :=
  fold_left (fun d kv => dict_set d (fst kv) (snd kv)) items [].

Definition keys (d : pydict) : list pykey := List.map fst d.

(** A Python dictionary never holds one key twice. *)
Fixpoint distinct (ks : list pykey) : bool :=
  match ks with
  | [] => true
  | k :: r => negb (existsb (key_eqb k) r) && distinct r
  end.

Definition dict_wf (d : pydict) : Prop := distinct (keys d) = true.

(** *** Truth value ([if x:], [not x]) *)

Definition nonempty {A : Type} (l : list A) : bool :=
  match l with [] => false | _ :: _ => true end.

Definition truthy (v : pyval) : bool :=
  match v with
  | PNone => false
  | PBool b => b
  | PInt z => negb (Z.eqb z 0)
  | PFloat (S754_zero _) => false
  | PFloat _ => true
  | PStr s => nonempty s
  | PBytes b => nonempty b
  | PTuple l => nonempty l
  | PList l => nonempty l
  | PDict d => nonempty d
  | PObject _ => true
  end.

(** [isinstance(x, int)]: [bool] is a subclass of [int]. *)
Definition as_int (v : pyval) : option Z :=
  match v with
  | PInt z => Some z
  | PBool b => Some (Z.b2z b)
  | _ => None
  end.

Definition is_int (v : pyval) : bool :=
  match as_int v with Some _ => true | None => false end.

(** ** The builtins the program calls *)

(** *** The UTF-8 codec

    [bytes.decode('utf-8', errors)] as CPython implements it: a lead byte
    announces the length of its sequence, the second byte of a three- or
    four-byte sequence is range-checked against overlong forms, surrogates
    and values above 0x10FFFF.  Under [Strict] the first malformed
    sequence raises; under [Ignore] the bytes read so far of the malformed
    sequence are skipped and decoding resumes at the offending byte (a
    sequence cut short by the end of the data is skipped whole). *)

Inductive errors_mode : Type := Strict | Ignore.

Definition is_continuation (c : N) : bool :=
  (N.leb 0x80 c && N.ltb c 0xC0)%bool.

Definition second_ok3 (ch ch2 : N) : bool :=
  is_continuation ch2
  && negb (if N.ltb ch2 0xA0 then N.eqb ch 0xE0 else N.eqb ch 0xED).

Definition second_ok4 (ch ch2 : N) : bool :=
  is_continuation ch2
  && negb (if N.ltb ch2 0x90 then N.eqb ch 0xF0 else N.eqb ch 0xF4).

Definition on_error (errors : errors_mode) (resumed : result pystr)
  : result pystr :=
  match errors with
  | Strict => Raise UnicodeDecodeError
  | Ignore => resumed
  end.

Definition emit (c : N) (rest : result pystr) : result pystr :=
  bind rest (fun t => Ok (c :: t)).

Definition cp2 (ch ch2 : N) : N :=
  N.lor (N.shiftl (N.land ch 0x1F) 6) (N.land ch2 0x3F).

Definition cp3 (ch ch2 ch3 : N) : N :=
  N.lor (N.shiftl (N.land ch 0x0F) 12)
    (N.lor (N.shiftl (N.land ch2 0x3F) 6) (N.land ch3 0x3F)).

Definition cp4 (ch ch2 ch3 ch4 : N) : N :=
  N.lor (N.shiftl (N.land ch 0x07) 18)
    (N.lor (N.shiftl (N.land ch2 0x3F) 12)
       (N.lor (N.shiftl (N.land ch3 0x3F) 6) (N.land ch4 0x3F))).

Fixpoint utf8_decode (errors : errors_mode) (s : pybytes) {struct s}
  : result pystr :=
  match s with
  | [] => Ok []
  | b1 :: s1 =>
      let ch := Byte.to_N b1 in
      if N.ltb ch 0x80 then emit ch (utf8_decode errors s1)
      else if N.ltb ch 0xC2 then on_error errors (utf8_decode errors s1)
      else if N.ltb ch 0xE0 then
        match s1 with
        | [] => on_error errors (Ok [])
        | b2 :: s2 =>
            let ch2 := Byte.to_N b2 in
            if is_continuation ch2
            then emit (cp2 ch ch2) (utf8_decode errors s2)
            else on_error errors (utf8_decode errors s1)
        end
      else if N.ltb ch 0xF0 then
        match s1 with
        | [] => on_error errors (Ok [])
        | b2 :: s2 =>
            let ch2 := Byte.to_N b2 in
            if second_ok3 ch ch2 then
              match s2 with
              | [] => on_error errors (Ok [])
              | b3 :: s3 =>
                  let ch3 := Byte.to_N b3 in
                  if is_continuation ch3
                  then emit (cp3 ch ch2 ch3) (utf8_decode errors s3)
                  else on_error errors (utf8_decode errors s2)
              end
            else on_error errors (utf8_decode errors s1)
        end
      else if N.ltb ch 0xF5 then
        match s1 with
        | [] => on_error errors (Ok [])
        | b2 :: s2 =>
            let ch2 := Byte.to_N b2 in
            if second_ok4 ch ch2 then
              match s2 with
              | [] => on_error errors (Ok [])
              | b3 :: s3 =>
                  let ch3 := Byte.to_N b3 in
                  if is_continuation ch3 then
                    match s3 with
                    | [] => on_error errors (Ok [])
                    | b4 :: s4 =>
                        let ch4 := Byte.to_N b4 in
                        if is_continuation ch4
                        then emit (cp4 ch ch2 ch3 ch4) (utf8_decode errors s4)
                        else on_error errors (utf8_decode errors s3)
                    end
                  else on_error errors (utf8_decode errors s2)
              end
            else on_error errors (utf8_decode errors s1)
        end
      else on_error errors (utf8_decode errors s1)
  end.

(** [str.encode('utf-8')]: a surrogate code point cannot be encoded.
    (A [str] holds no code point above 0x10FFFF; what the last branch
    yields for one is immaterial.) *)

Definition byte_of (n : N) : byte :=
  match Byte.of_N n with Some b => b | None => x00 end.

Definition is_surrogate (c : N) : bool :=
  (N.leb 0xD800 c && N.leb c 0xDFFF)%bool.

Definition trail (c : N) : byte := byte_of (N.lor 0x80 (N.land c 0x3F)).

Definition encode_codepoint (c : N) : result pybytes :=
  if N.ltb c 0x80 then Ok [byte_of c]
  else if N.ltb c 0x800 then
    Ok [byte_of (N.lor 0xC0 (N.shiftr c 6)); trail c]
  else if N.ltb c 0x10000 then
    if is_surrogate c then Raise UnicodeEncodeError
    else Ok [byte_of (N.lor 0xE0 (N.shiftr c 12)); trail (N.shiftr c 6);
             trail c]
  else
    Ok [byte_of (N.lor 0xF0 (N.land (N.shiftr c 18) 0x07));
        trail (N.shiftr c 12); trail (N.shiftr c 6); trail c].

Fixpoint utf8_encode (s : pystr) : result pybytes :=
  match s with
  | [] => Ok []
  | c :: t =>
      bind (encode_codepoint c) (fun b =>
      bind (utf8_encode t) (fun r => Ok (b ++ r)))
  end.

(** *** [str.strip()], [bytes.hex()], [str(int)] *)

(** The code points [str.isspace] accepts. *)
Definition isspace (c : N) : bool :=
  (N.leb 0x09 c && N.leb c 0x0D) || (N.leb 0x1C c && N.leb c 0x20)
  || N.eqb c 0x85 || N.eqb c 0xA0 || N.eqb c 0x1680
  || (N.leb 0x2000 c && N.leb c 0x200A)
  || N.eqb c 0x2028 || N.eqb c 0x2029 || N.eqb c 0x202F
  || N.eqb c 0x205F || N.eqb c 0x3000.

Fixpoint lstrip (s : pystr) : pystr :=
  match s with
  | [] => []
  | c :: t => if isspace c then lstrip t else s
  end.

Definition rstrip (s : pystr) : pystr := rev (lstrip (rev s)).

Definition strip (s : pystr) : pystr := rstrip (lstrip s).

Definition hex_digit (n : N) : N :=
  if N.ltb n 10 then 48 + n else 87 + n.

Definition hex (b : pybytes) : pystr :=
  flat_map (fun x => [hex_digit (N.div (Byte.to_N x) 16);
                      hex_digit (N.modulo (Byte.to_N x) 16)]) b.

Definition str_of_int (z : Z) : pystr :=
  text (NilZero.string_of_int (Z.to_int z)).

(** [str(k)] for a dictionary key. *)
Definition str_of_key (k : pykey) : pystr :=
  match k with
  | KInt z => str_of_int z
  | KStr s => s
  end.

End Py.

(** ** The EXIF sanitizer *)

Module Sanitizer.
Import Py.

(** [problematic_tags]: ColorSpace (two ids), PixelXDimension,
    PixelYDimension, the Exif IFD pointer and the GPS IFD pointer. *)
Definition problematic_tags : list Z :=
  [41729; 40961; 40962; 40963; 34665; 34853]%Z.

(** [tag_id in problematic_tags]. *)
Definition in_problematic_tags (tag_id : pykey) : bool :=
  match tag_id with
  | KInt z => existsb (Z.eqb z) problematic_tags
  | KStr _ => false
  end.

(** [-2147483648 <= x <= 2147483647]. *)
Definition int32 (x : Z) : bool :=
  (Z.leb (-2147483648) x && Z.leb x 2147483647)%bool.

Definition int32_value (x : pyval) : bool :=
  match as_int x with Some z => int32 z | None => false end.

(** The type dispatch of the inner loop: what is stored under the tag
    ([Some]), or nothing ([None], the tag is left out); encoding a text
    value may raise. *)
Definition clean_tag_value (tag_value : pyval) : result (option pyval) :=
  match tag_value with
  | PBytes b =>
      match utf8_decode Ignore b with
      | Ok _ => Ok (Some tag_value)
      | Raise _ => Ok None
      end
  | PStr s =>
      e <- utf8_encode s ;; Ok (Some (PBytes e))
  | PInt z =>
      if int32 z then Ok (Some tag_value) else Ok None
  | PBool b =>
      if int32 (Z.b2z b) then Ok (Some tag_value) else Ok None
  | PTuple l =>
      if (Nat.eqb (List.length l) 2 && forallb is_int l)%bool then
        if forallb int32_value l then Ok (Some tag_value) else Ok None
      else Ok None
  | PNone | PFloat _ | PList _ | PDict _ | PObject _ => Ok None
  end.

(** [for tag_id, tag_value in ifd_data.items(): ...], threading
    [cleaned_ifd]. *)
Fixpoint clean_ifd (items : pydict) (cleaned_ifd : pydict) : result pydict :=
  match items with
  | [] => Ok cleaned_ifd
  | (tag_id, tag_value) :: rest =>
      if in_problematic_tags tag_id then clean_ifd rest cleaned_ifd
      else
        kept <- clean_tag_value tag_value ;;
        match kept with
        | Some v => clean_ifd rest (dict_set cleaned_ifd tag_id v)
        | None => clean_ifd rest cleaned_ifd
        end
  end.

(** [isinstance(ifd_data, (bytes, str, int))]. *)
Definition is_basic (ifd_data : pyval) : bool :=
  match ifd_data with
  | PBytes _ | PStr _ | PInt _ | PBool _ => true
  | _ => false
  end.

(** [for ifd_name, ifd_data in exif_dict.items(): ...], threading
    [cleaned_dict]. *)
Fixpoint clean_groups (items : pydict) (cleaned_dict : pydict)
  : result pydict :=
  match items with
  | [] => Ok cleaned_dict
  | (ifd_name, ifd_data) :: rest =>
      match ifd_data with
      | PDict ifd =>
          cleaned_ifd <- clean_ifd ifd [] ;;
          if nonempty cleaned_ifd
          then clean_groups rest (dict_set cleaned_dict ifd_name (PDict cleaned_ifd))
          else clean_groups rest cleaned_dict
      | _ =>
          if is_basic ifd_data
          then clean_groups rest (dict_set cleaned_dict ifd_name ifd_data)
          else clean_groups rest cleaned_dict
      end
  end.

(** The body of the [try] block: [exif_dict.items()] exists on a
    dictionary only. *)
Definition clean_exif_body (exif_dict : pyval) : result pydict :=
  match exif_dict with
  | PDict items => clean_groups items []
  | _ => Raise AttributeError
  end.

Definition clean_exif_data (exif_dict : pyval) : pyval :=
  if negb (truthy exif_dict) then PNone
  else
    match clean_exif_body exif_dict with
    | Ok cleaned_dict =>
        if nonempty cleaned_dict then PDict cleaned_dict else PNone
    | Raise _ => PNone
    end.

End Sanitizer.

(** ** The timestamp resolver *)

Module Resolver.
Import Py.

(** piexif's tag ids: [ExifIFD.DateTimeOriginal], [ExifIFD.DateTimeDigitized]
    and [ImageIFD.DateTime]. *)
Definition DateTimeOriginal : Z := 36867.
Definition DateTimeDigitized : Z := 36868.
Definition DateTime : Z := 306.

Definition datetime_tags : list (pystr * Z) :=
  [(text "Exif", DateTimeOriginal);
   (text "Exif", DateTimeDigitized);
   (text "0th", DateTime)].

Definition placeholder : pystr := text "0000:00:00 00:00:00".

Definition pystr_eqb (s t : pystr) : bool :=
  if list_eq_dec N.eq_dec s t then true else false.

(** [x == tag_id] for an element of a sequence: numbers compare by
    value, whatever their type. *)
Definition float_eq_int (f : spec_float) (z : Z) : bool :=
  match f with
  | S754_zero _ => Z.eqb z 0
  | S754_finite sign m e =>
      let v := if sign then Z.neg m else Z.pos m in
      if Z.leb 0 e then Z.eqb (v * 2 ^ e) z else Z.eqb v (z * 2 ^ (- e))
  | S754_infinity _ | S754_nan => false
  end.

Section object_equality.

(** What [x == z] gives for an object [x] of another type (a rational of
    the image library, say) and an integer [z]: the truth of the answer
    of its [__eq__], or the exception it raises. *)
Variable object_eq : pyval -> Z -> result bool.

Definition eq_int (x : pyval) (z : Z) : result bool :=
  match x with
  | PInt y => Ok (Z.eqb y z)
  | PBool b => Ok (Z.eqb (Z.b2z b) z)
  | PFloat f => Ok (float_eq_int f z)
  | PObject _ => object_eq x z
  | PNone | PStr _ | PBytes _ | PTuple _ | PList _ | PDict _ => Ok false
  end.

(** [tag_id in sequence] for a list or a tuple: the elements are compared
    in order, up to the first one that is equal. *)
Fixpoint sequence_contains (sequence : list pyval) (tag_id : Z)
  : result bool :=
  match sequence with
  | [] => Ok false
  | x :: rest =>
      equal <- eq_int x tag_id ;;
      if equal : bool then Ok true else sequence_contains rest tag_id
  end.

(** [tag_id in container]. *)
Definition contains_tag (container : pyval) (tag_id : Z) : result bool :=
  match container with
  | PDict d => Ok (dict_mem d (KInt tag_id))
  | PList l | PTuple l => sequence_contains l tag_id
  | PBytes b =>
      if (Z.leb 0 tag_id && Z.ltb tag_id 256)%bool
      then Ok (existsb (fun x => Z.eqb (Z.of_N (Byte.to_N x)) tag_id) b)
      else Raise ValueError
  | PStr _ | PNone | PBool _ | PInt _ | PFloat _ | PObject _ =>
      Raise TypeError
  end.

Definition index {A} (l : list A) (i : Z) : option A :=
  if Z.leb 0 i then nth_error l (Z.to_nat i)
  else if Z.leb 0 (Z.of_nat (List.length l) + i)
       then nth_error l (Z.to_nat (Z.of_nat (List.length l) + i))
       else None.

(** [container[tag_id]]. *)
Definition get_tag (container : pyval) (tag_id : Z) : result pyval :=
  match container with
  | PDict d =>
      match dict_get d (KInt tag_id) with
      | Some v => Ok v
      | None => Raise KeyError
      end
  | PList l | PTuple l =>
      match index l tag_id with
      | Some v => Ok v
      | None => Raise IndexError
      end
  | PBytes b =>
      match index b tag_id with
      | Some x => Ok (PInt (Z.of_N (Byte.to_N x)))
      | None => Raise IndexError
      end
  | PStr s =>
      match index s tag_id with
      | Some c => Ok (PStr [c])
      | None => Raise IndexError
      end
  | PNone | PBool _ | PInt _ | PFloat _ | PObject _ => Raise TypeError
  end.

(** The test that ends the loop body: return the text, or go on with
    the next candidate. *)
Definition first_valid (datetime_str : pystr) (next : result pyval)
  : result pyval :=
  if (nonempty datetime_str && negb (pystr_eqb datetime_str placeholder))%bool
  then Ok (PStr datetime_str)
  else next.

(** [for ifd_name, tag_id in datetime_tags: ...]; running off the end of
    the list reaches the final [return None]. *)
Fixpoint probe (exif_dict : pydict) (tags : list (pystr * Z))
  : result pyval :=
  match tags with
  | [] => Ok PNone
  | (ifd_name, tag_id) :: rest =>
      match dict_get exif_dict (KStr ifd_name) with
      | None => probe exif_dict rest
      | Some group =>
          present <- contains_tag group tag_id ;;
          if present : bool then
            datetime_value <- get_tag group tag_id ;;
            match datetime_value with
            | PBytes b =>
                decoded <- utf8_decode Ignore b ;;
                first_valid (strip decoded) (probe exif_dict rest)
            | PStr s => first_valid (strip s) (probe exif_dict rest)
            | _ => probe exif_dict rest
            end
          else probe exif_dict rest
      end
  end.

(** On a value that is not a dictionary every path ends in the final
    [return None]: [ifd_name in exif_dict] is false or raises, and where
    it holds (a text or a sequence that contains the name) the subscript
    [exif_dict[ifd_name]] raises inside the [try] block. *)
Definition get_creation_datetime_from_exif (exif_dict : pyval) : pyval :=
  if negb (truthy exif_dict) then PNone
  else
    match exif_dict with
    | PDict d =>
        match probe d datetime_tags with
        | Ok v => v
        | Raise _ => PNone
        end
    | _ => PNone
    end.

End object_equality.

End Resolver.

(** ** Colour-mode normalisation in [convert_image_to_webp] *)

Module ColorMode.

(** What the converter reads of an opened image: its mode and the keys
    of its [info] dictionary. *)
Record image : Type := { mode : string; info : list string }.

Definition member (x : string) (l : list string) : bool :=
  existsb (String.eqb x) l.

(** The branch taken: [img.convert(target)] or the image itself. *)
Inductive normalization : Type :=
| Convert (target : string)
| Unchanged.

Definition normalize_mode (img : image) : normalization :=
  if member (mode img) ["RGBA"; "LA"]%string then Convert "RGBA"
  else if String.eqb (mode img) "P" then
    if member "transparency"%string (info img) then Convert "RGBA"
    else Convert "RGB"
  else if negb (member (mode img) ["RGB"; "RGBA"]%string) then Convert "RGB"
  else Unchanged.

Section conversion.

(** The image library's [Image.convert]: [convert img target] is
    [img.convert(target)]. *)
Variable convert : image -> string -> image.

(** [converted_img]. *)
Definition converted_img (img : image) : image :=
  match normalize_mode img with
  | Convert target => convert img target
  | Unchanged => img
  end.

End conversion.

End ColorMode.

(** ** JSON-safe conversion of metadata *)

Module JsonBackup.
Import Py.

(** The f-string
    [<bytes:{len(obj)}:{obj.hex()[:50]}{'...' if len(obj.hex()) > 50 else ''}>]. *)
Definition bytes_placeholder (obj : pybytes) : pystr :=
  text "<bytes:" ++ str_of_int (Z.of_nat (List.length obj)) ++ text ":"
  ++ firstn 50 (hex obj)
  ++ (if Nat.ltb 50 (List.length (hex obj)) then text "..." else [])
  ++ text ">".

Fixpoint convert_bytes_for_json (obj : pyval) : pyval :=
  match obj with
  | PBytes b =>
      match utf8_decode Strict b with
      | Ok s => PStr s
      | Raise _ => PStr (bytes_placeholder b)
      end
  | PDict d =>
      PDict (dict_of_items
               (List.map (fun kv => (KStr (str_of_key (fst kv)),
                                     convert_bytes_for_json (snd kv))) d))
  | PList l | PTuple l => PList (List.map convert_bytes_for_json l)
  | PInt _ | PFloat _ | PStr _ | PBool _ | PNone => obj
  | PObject s => PStr s
  end.

End JsonBackup.

(** ** The contracts, in the specification's words *)

Module Contract.
Import Py Sanitizer Resolver.

(** The value stored under a tag of a group of a tree, if any. *)
Definition tree_tag (tree : pyval) (ifd_name tag_id : pykey) : option pyval :=
  match tree with
  | PDict groups =>
      match dict_get groups ifd_name with
      | Some (PDict ifd) => dict_get ifd tag_id
      | _ => None
      end
  | _ => None
  end.

(** The top-level entry of a tree under a name, if any. *)
Definition tree_entry (tree : pyval) (ifd_name : pykey) : option pyval :=
  match tree with
  | PDict groups => dict_get groups ifd_name
  | _ => None
  end.

(** A text value that cannot be encoded as UTF-8 makes the sanitizer give
    up on the whole tree; a tree is encodable when no tag outside the
    denylist holds such a text. *)
Definition unencodable (v : pyval) : bool :=
  match v with
  | PStr s => existsb is_surrogate s
  | _ => false
  end.

Definition ifd_encodable (ifd : pydict) : bool :=
  forallb (fun kv => in_problematic_tags (fst kv) || negb (unencodable (snd kv)))
    ifd.

Definition tree_encodable (groups : pydict) : bool :=
  forallb (fun kv => match snd kv with
                     | PDict ifd => ifd_encodable ifd
                     | _ => true
                     end) groups.

(** A tuple of exactly two integers, both in the signed 32-bit range. *)
Definition rational_in_range (l : list pyval) : bool :=
  match l with
  | [a; b] => int32_value a && int32_value b
  | _ => false
  end.

(** A tag that survives filtering: outside the denylist, with a value of
    a kept kind. *)
Definition value_survives (v : pyval) : bool :=
  match v with
  | PBytes _ | PStr _ => true
  | PInt z => int32 z
  | PBool _ => true
  | PTuple l => rational_in_range l
  | _ => false
  end.

Definition tag_survives (kv : pykey * pyval) : bool :=
  negb (in_problematic_tags (fst kv)) && value_survives (snd kv).

Definition entry_survives (kv : pykey * pyval) : bool :=
  match snd kv with
  | PDict ifd => existsb tag_survives ifd
  | v => is_basic v
  end.

(** A value the sanitizer stores as it is: binary, an integer in range,
    a rational in range. *)
Definition settled_value (v : pyval) : bool :=
  match v with
  | PBytes _ => true
  | PInt z => int32 z
  | PBool _ => true
  | PTuple l => rational_in_range l
  | _ => false
  end.

Definition settled_tag (kv : pykey * pyval) : bool :=
  negb (in_problematic_tags (fst kv)) && settled_value (snd kv).

Definition settled_ifd (ifd : pydict) : bool :=
  nonempty ifd && distinct (keys ifd) && forallb settled_tag ifd.

Definition settled_entry (v : pyval) : bool :=
  match v with
  | PDict ifd => settled_ifd ifd
  | _ => is_basic v
  end.

(** The shape of a sanitized tree: no empty group, no denylisted tag,
    every value settled. *)
Definition sanitized_tree (groups : pydict) : bool :=
  nonempty groups && distinct (keys groups)
  && forallb (fun kv => settled_entry (snd kv)) groups.

(** What the result holds for a top-level entry: the cleaned group
    unless it is empty, a basic value as it is. *)
Definition cleaned_entry (v : pyval) : option pyval :=
  match v with
  | PDict ifd =>
      match clean_ifd ifd [] with
      | Ok c => if nonempty c then Some (PDict c) else None
      | Raise _ => None
      end
  | _ => if is_basic v then Some v else None
  end.

(** The text a field yields when it is usable: decoded, stripped,
    non-empty and not the all-zero placeholder. *)
Definition usable_text (field : option pyval) : option pystr :=
  let check s :=
    if (nonempty s && negb (pystr_eqb s placeholder))%bool
    then Some s else None in
  match field with
  | Some (PBytes b) =>
      match utf8_decode Ignore b with
      | Ok s => check (strip s)
      | Raise _ => None
      end
  | Some (PStr s) => check (strip s)
  | _ => None
  end.

Definition first_usable (groups : pydict) : option pystr :=
  let field name tag := tree_tag (PDict groups) (KStr (text name)) (KInt tag) in
  match usable_text (field "Exif"%string DateTimeOriginal) with
  | Some s => Some s
  | None =>
      match usable_text (field "Exif"%string DateTimeDigitized) with
      | Some s => Some s
      | None => usable_text (field "0th"%string DateTime)
      end
  end.

(** The entry under a group name is a group mapping, or there is none. *)
Definition group_is_mapping (groups : pydict) (name : string) : bool :=
  match dict_get groups (KStr (text name)) with
  | Some (PDict _) | None => true
  | Some _ => false
  end.

(** JSON-serializable: null, booleans, numbers and text, in sequences
    and in mappings keyed by text. *)
Fixpoint json_safe (v : pyval) : bool :=
  match v with
  | PNone | PBool _ | PInt _ | PFloat _ | PStr _ => true
  | PList l | PTuple l => forallb json_safe l
  | PDict d =>
      forallb (fun kv => match fst kv with KStr _ => true | KInt _ => false end
                         && json_safe (snd kv)) d
  | PBytes _ | PObject _ => false
  end.

(** A text whose code points are all Unicode code points. *)
Definition unicode (s : pystr) : Prop := Forall (fun c => (c < 0x110000)%N) s.

(** The modes with alpha: those of the image library's modes that have
    an alpha band, which are RGBA, LA (luminance and alpha), PA (palette
    and alpha) and the premultiplied RGBa and La. *)
Definition alpha_modes : list string :=
  ["RGBA"; "LA"; "PA"; "RGBa"; "La"]%string.

Definition has_alpha (mode : string) : bool := ColorMode.member mode alpha_modes.

End Contract.

(** ** Sample trees *)

Module Samples.
Import Py.
Local Open Scope Z_scope.

Definition group (name : string) (ifd : pydict) : pykey * pyval :=
  (KStr (text name), PDict ifd).

(** A tree as loaded from a photograph: Make as text, Model, the
    ResolutionUnit, XResolution, the Exif IFD pointer and DateTime in the
    0th group; DateTimeOriginal, PixelXDimension, ExposureTime, a focal
    length with an oversized numerator and an oversized sensitivity in
    the Exif group; no GPS tag and no thumbnail. *)
Definition photo_0th : pydict :=
  [(KInt 271, PStr (text "Acme"));
   (KInt 272, PBytes (bytes_of "X1"));
   (KInt 296, PInt 2);
   (KInt 282, PTuple [PInt 72; PInt 1]);
   (KInt 34665, PInt 90);
   (KInt 306, PBytes (bytes_of "2021:05:05 05:05:05"))].

Definition photo_exif : pydict :=
  [(KInt 36867, PBytes (bytes_of "2020:01:01 10:00:00"));
   (KInt 40962, PInt 640);
   (KInt 33434, PTuple [PInt 1; PInt 0]);
   (KInt 37386, PTuple [PInt 2147483648; PInt 1]);
   (KInt 34855, PInt 4294967296)].

Definition photo : pydict :=
  [group "0th" photo_0th; group "Exif" photo_exif; group "GPS" [];
   (KStr (text "thumbnail"), PNone)].

(** What the sanitizer makes of it. *)
Definition cleaned_0th : pydict :=
  [(KInt 271, PBytes (bytes_of "Acme"));
   (KInt 272, PBytes (bytes_of "X1"));
   (KInt 296, PInt 2);
   (KInt 282, PTuple [PInt 72; PInt 1]);
   (KInt 306, PBytes (bytes_of "2021:05:05 05:05:05"))].

Definition cleaned_exif : pydict :=
  [(KInt 36867, PBytes (bytes_of "2020:01:01 10:00:00"));
   (KInt 33434, PTuple [PInt 1; PInt 0])].

Definition photo_cleaned : pydict :=
  [group "0th" cleaned_0th; group "Exif" cleaned_exif].

(** A group that holds a text with a lone surrogate beside an integer, a
    rational and a binary value. *)
Definition broken_0th : pydict :=
  [(KInt 296, PInt 2);
   (KInt 282, PTuple [PInt 1; PInt 0]);
   (KInt 272, PBytes (bytes_of "X1"));
   (KInt 271, PStr [0xD800%N])].

Definition broken : pydict := [group "0th" broken_0th].

(** A tree whose only field is a text. *)
Definition text_only_0th : pydict := [(KInt 271, PStr (text "Acme"))].

Definition text_only : pydict := [group "0th" text_only_0th].

Definition text_only_cleaned : pydict :=
  [group "0th" [(KInt 271, PBytes (bytes_of "Acme"))]].

(** A sanitized tree whose Exif entry is an integer, not a group. *)
Definition stray_exif : pydict :=
  [(KStr (text "Exif"), PInt 7);
   group "0th" [(KInt 306, PBytes (bytes_of "2021:05:05 05:05:05"))]].

(** A tree whose only timestamp is the placeholder. *)
Definition placeholder_only : pydict :=
  [group "Exif" [(KInt 36867, PBytes (bytes_of "0000:00:00 00:00:00"))]].

(** A tree the sanitizer returns as it is, whose 0th entry is an integer
    and no group. *)
Definition stray_0th : pydict :=
  [(KStr (text "0th"), PInt 7);
   group "Exif" [(KInt 33434, PTuple [PInt 1; PInt 200])]].

(** Comparisons for objects of another type that equal no integer. *)
Definition never_equal (x : pyval) (z : Z) : result bool := Ok false.
Definition always_differs (x : pyval) (z : Z) : result bool := Ok true.

End Samples.

(** ** The metadata extractor *)

Module Extractor.
Import Py Sanitizer.

(** The dictionary [metadata] of [extract_all_metadata]. *)
Record metadata : Type :=
  { exif : pyval; icc_profile : pyval; xmp : pyval; other_info : pydict }.

Definition empty_metadata : metadata :=
  {| exif := PNone; icc_profile := PNone; xmp := PNone; other_info := [] |}.

(** [key not in ['exif', 'icc_profile', 'xmp']], negated. *)
Definition is_reserved (key : pykey) : bool :=
  existsb (key_eqb key)
    [KStr (text "exif"); KStr (text "icc_profile"); KStr (text "xmp")].

(** [for key, value in img.info.items(): ...], threading
    [metadata['other_info']]. *)
Fixpoint collect_other_info (items : pydict) (other : pydict) : pydict :=
  match items with
  | [] => other
  | (key, value) :: rest =>
      if is_reserved key then collect_other_info rest other
      else collect_other_info rest (dict_set other key value)
  end.

Section extract_all_metadata.

(** [piexif.load], which parses the EXIF block of the image or raises. *)
Variable piexif_load : pyval -> result pyval.

(** [opened] is what [Image.open(image_path)] gives: the [info]
    dictionary of the image, or an exception, on which the function
    returns the bundle as it was initialised. *)
Definition extract_all_metadata (opened : result pydict) : metadata :=
  match opened with
  | Raise _ => empty_metadata
  | Ok info =>
      {| exif :=
           match dict_get info (KStr (text "exif")) with
           | Some raw =>
               match piexif_load raw with
               | Ok exif_dict => clean_exif_data exif_dict
               | Raise _ => PNone
               end
           | None => PNone
           end;
         icc_profile :=
           match dict_get info (KStr (text "icc_profile")) with
           | Some v => v
           | None => PNone
           end;
         xmp :=
           match dict_get info (KStr (text "xmp")) with
           | Some v => v
           | None => PNone
           end;
         other_info := collect_other_info info [] |}
  end.

End extract_all_metadata.

End Extractor.

(** ** The metadata backup: camera and technical fields, ICC preview *)

Module Backup.
Import Py Resolver.

(** piexif's tag ids of the curated fields. *)
Definition Make : Z := 271.
Definition Model : Z := 272.
Definition Software : Z := 305.
Definition ExposureTime : Z := 33434.
Definition FNumber : Z := 33437.
Definition ISOSpeedRatings : Z := 34855.
Definition FocalLength : Z := 37386.

Definition camera_tags : list (Z * pystr) :=
  [(Make, text "camera_make");
   (Model, text "camera_model");
   (Software, text "software");
   (DateTime, text "datetime_modified")].

Definition tech_tags : list (Z * pystr) :=
  [(DateTimeOriginal, text "datetime_original");
   (DateTimeDigitized, text "datetime_digitized");
   (ExposureTime, text "exposure_time");
   (FNumber, text "aperture");
   (ISOSpeedRatings, text "iso");
   (FocalLength, text "focal_length")].

Section rendering.

(** What [x == z] and [x != z] give for an object [x] of another type
    and an integer [z]: the truth of the answer of the comparison, or the
    exception it raises. *)
Variable object_eq : pyval -> Z -> result bool.
Variable object_ne : pyval -> Z -> result bool.

(** [str()] of the values whose rendering the model leaves open: floats,
    binary values and containers. *)
Variable repr : pyval -> pystr.

(** [x != z]. *)
Definition ne_int (x : pyval) (z : Z) : result bool :=
  match x with
  | PObject _ => object_ne x z
  | _ => equal <- eq_int object_eq x z ;; Ok (negb equal)
  end.

Definition py_str (x : pyval) : pystr :=
  match x with
  | PNone => text "None"
  | PBool true => text "True"
  | PBool false => text "False"
  | PInt z => str_of_int z
  | PStr s => s
  | PObject s => s
  | _ => repr x
  end.

(** The rendering of a two-component tuple [value]:
    [f"{value[0]}/{value[1]}"] if [value[1] != 0], else [str(value[0])]. *)
Definition render_fraction (value0 value1 : pyval) : result pystr :=
  nonzero <- ne_int value1 0 ;;
  if nonzero : bool then Ok (py_str value0 ++ text "/" ++ py_str value1)
  else Ok (py_str value0).

(** [for tag_id, key in camera_tags.items(): ...], threading
    [camera_info]. *)
Fixpoint collect_camera (exif_0th : pyval) (tags : list (Z * pystr))
  (camera_info : pydict) : result pydict :=
  match tags with
  | [] => Ok camera_info
  | (tag_id, key) :: rest =>
      present <- contains_tag object_eq exif_0th tag_id ;;
      if present : bool then
        value <- get_tag exif_0th tag_id ;;
        match value with
        | PBytes b =>
            match utf8_decode Ignore b with
            | Ok s =>
                collect_camera exif_0th rest
                  (dict_set camera_info (KStr key) (PStr (strip s)))
            | Raise _ => collect_camera exif_0th rest camera_info
            end
        | _ =>
            collect_camera exif_0th rest (dict_set camera_info (KStr key) value)
        end
      else collect_camera exif_0th rest camera_info
  end.

(** [for tag_id, key in tech_tags.items(): ...], threading
    [technical_info]. *)
Fixpoint collect_technical (exif_data : pyval) (tags : list (Z * pystr))
  (technical_info : pydict) : result pydict :=
  match tags with
  | [] => Ok technical_info
  | (tag_id, key) :: rest =>
      present <- contains_tag object_eq exif_data tag_id ;;
      if present : bool then
        value <- get_tag exif_data tag_id ;;
        match value with
        | PBytes b =>
            match utf8_decode Ignore b with
            | Ok s =>
                collect_technical exif_data rest
                  (dict_set technical_info (KStr key) (PStr (strip s)))
            | Raise _ => collect_technical exif_data rest technical_info
            end
        | PTuple [value0; value1] =>
            fraction <- render_fraction value0 value1 ;;
            collect_technical exif_data rest
              (dict_set technical_info (KStr key) (PStr fraction))
        | _ =>
            collect_technical exif_data rest
              (dict_set technical_info (KStr key) value)
        end
      else collect_technical exif_data rest technical_info
  end.

(** [if '0th' in metadata['exif']: ...], from the empty [camera_info]. *)
Definition camera_block (exif : pydict) : result pydict :=
  match dict_get exif (KStr (text "0th")) with
  | Some exif_0th => collect_camera exif_0th camera_tags []
  | None => Ok []
  end.

(** [if 'Exif' in metadata['exif']: ...], from the empty
    [technical_info]. *)
Definition technical_block (exif : pydict) : result pydict :=
  match dict_get exif (KStr (text "Exif")) with
  | Some exif_data => collect_technical exif_data tech_tags []
  | None => Ok []
  end.

(** [camera_info] and [technical_info] as [json_metadata] is built with
    them, for a dictionary [metadata['exif']] (for None both stay empty,
    as for an empty dictionary).  The camera block runs first and the
    technical block after it, inside the one [try] of the function: an
    exception raised by either leaves it, nothing of the two is recorded
    and the simplified backup is written instead. *)
Definition camera_and_technical_info (exif : pydict)
  : result (pydict * pydict) :=
  if truthy (PDict exif) then
    camera_info <- camera_block exif ;;
    technical_info <- technical_block exif ;;
    Ok (camera_info, technical_info)
  else Ok ([], []).

End rendering.

(** The preview of [icc_profile_info]:
    [icc[:50].hex() if len(icc) > 50 else icc.hex()]. *)
Definition icc_preview (icc : pybytes) : pystr :=
  if Nat.ltb 50 (List.length icc) then hex (firstn 50 icc) else hex icc.

End Backup.

(** ** The metadata display *)

Module Display.
Import Py.

(** [sum(len(ifd) if isinstance(ifd, dict) else 1
        for ifd in metadata['exif'].values())]. *)
Definition exif_count (exif : pydict) : nat :=
  list_sum (List.map (fun kv => match snd kv with
                                | PDict ifd => List.length ifd
                                | _ => 1%nat
                                end) exif).

End Display.

(** ** Further contracts *)

Module Shape.
Import Py Sanitizer Resolver.

(** The entry under a group name, if there is one, is none of the basic
    values the sanitizer passes through. *)
Definition entry_not_basic (groups : pydict) (name : string) : bool :=
  match dict_get groups (KStr (text name)) with
  | Some v => negb (is_basic v)
  | None => true
  end.

(** A value with nothing to convert for JSON: no binary value, no tuple,
    no foreign object, mappings keyed by distinct texts. *)
Fixpoint json_normal (v : pyval) : bool :=
  match v with
  | PNone | PBool _ | PInt _ | PFloat _ | PStr _ => true
  | PList l => forallb json_normal l
  | PDict d =>
      distinct (keys d)
      && forallb (fun kv => match fst kv with KStr _ => true | KInt _ => false end
                            && json_normal (snd kv)) d
  | PBytes _ | PTuple _ | PObject _ => false
  end.

(** A text or an integer (a boolean is one). *)
Definition text_or_int (v : pyval) : bool :=
  match v with
  | PStr _ | PInt _ | PBool _ => true
  | _ => false
  end.

(** A text, an integer or a pair of integers. *)
Definition text_int_or_pair (v : pyval) : bool :=
  match v with
  | PTuple [a; b] => is_int a && is_int b
  | _ => text_or_int v
  end.

(** A number equal to zero. *)
Definition is_zero (x : pyval) : bool :=
  match x with
  | PInt z => Z.eqb z 0
  | PBool b => negb b
  | PFloat (S754_zero _) => true
  | _ => false
  end.

(** A pair whose second component is an object of another type: how it
    is rendered depends on what the comparison of the object with zero
    gives. *)
Definition object_denominator (v : pyval) : bool :=
  match v with
  | PTuple [_; PObject _] => true
  | _ => false
  end.

(** What the backup records for a value of a camera field and of a
    technical field (for a pair, when its second component is a value
    the model compares with zero itself). *)
Definition camera_value (v : pyval) : option pyval :=
  match v with
  | PBytes b =>
      match utf8_decode Ignore b with
      | Ok s => Some (PStr (strip s))
      | Raise _ => None
      end
  | _ => Some v
  end.

Definition technical_value (repr : pyval -> pystr) (v : pyval) : option pyval :=
  match v with
  | PBytes b =>
      match utf8_decode Ignore b with
      | Ok s => Some (PStr (strip s))
      | Raise _ => None
      end
  | PTuple [value0; value1] =>
      Some (PStr (if is_zero value1 then Backup.py_str repr value0
                  else Backup.py_str repr value0 ++ text "/"
                       ++ Backup.py_str repr value1))
  | _ => Some v
  end.

(** The fields recorded from a group mapping, one tag after the other. *)
Fixpoint collect_fields (record : pyval -> option pyval) (ifd : pydict)
  (tags : list (Z * pystr)) (info : pydict) : pydict :=
  match tags with
  | [] => info
  | (tag_id, key) :: rest =>
      match dict_get ifd (KInt tag_id) with
      | Some v =>
          match record v with
          | Some x => collect_fields record ifd rest (dict_set info (KStr key) x)
          | None => collect_fields record ifd rest info
          end
      | None => collect_fields record ifd rest info
      end
  end.

(** The fields recorded from the group under a name, none when there
    is no such group. *)
Definition group_fields (record : pyval -> option pyval) (exif : pydict)
  (name : string) (tags : list (Z * pystr)) : pydict :=
  match dict_get exif (KStr (text name)) with
  | Some (PDict ifd) => collect_fields record ifd tags []
  | _ => []
  end.

End Shape.

(** ** A sample image *)

Module ImageSamples.
Import Py Samples.
Local Open Scope Z_scope.

(** The [info] of an opened JPEG: an EXIF block, the resolution, an ICC
    profile and the JFIF version. *)
Definition jpeg_info : pydict :=
  [(KStr (text "exif"), PBytes (bytes_of "Exif"));
   (KStr (text "dpi"), PTuple [PInt 72; PInt 72]);
   (KStr (text "icc_profile"), PBytes (bytes_of "ADBE"));
   (KStr (text "jfif"), PInt 257)].

(** A loader that parses every block into the photograph's tree. *)
Definition load_photo (raw : pyval) : result pyval := Ok (PDict photo).

(** A rendering of the values whose [str()] the model leaves open. *)
Definition no_repr (x : pyval) : pystr := text "?".

(** An [Image.convert] that changes the mode and nothing else. *)
Definition set_mode (img : ColorMode.image) (target : string)
  : ColorMode.image :=
  {| ColorMode.mode := target; ColorMode.info := ColorMode.info img |}.

(** The sanitized photograph with a GPS group beside its groups. *)
Definition photo_with_gps : pydict :=
  photo_cleaned ++ [group "GPS" [(KInt 1, PBytes (bytes_of "N"))]].

End ImageSamples.

(** * Properties *)

Import Py Sanitizer Resolver ColorMode JsonBackup Contract Samples.

(** ** Dictionaries *)

Lemma key_eqb_eq (a b : pykey) : key_eqb a b = true <-> a = b.
Proof.
  destruct a as [x|s], b as [y|t]; simpl; split; intros H;
    try discriminate; try congruence.
  - apply Z.eqb_eq in H. now subst.
  - injection H as ->. apply Z.eqb_refl.
  - destruct (list_eq_dec N.eq_dec s t); [now subst | discriminate].
  - injection H as ->. destruct (list_eq_dec N.eq_dec t t); congruence.
Qed.

Lemma key_eqb_refl (k : pykey) : key_eqb k k = true.
Proof. now apply key_eqb_eq. Qed.

Lemma key_eqb_neq (a b : pykey) : key_eqb a b = false <-> a <> b.
Proof.
  rewrite <- key_eqb_eq. destruct (key_eqb a b); split; congruence.
Qed.

Lemma existsb_key_eqb (k : pykey) (ks : list pykey) :
  existsb (key_eqb k) ks = true <-> In k ks.
Proof.
  rewrite existsb_exists. split.
  - intros (x & Hx & E). apply key_eqb_eq in E. now subst.
  - intros H. exists k. split; [assumption | apply key_eqb_refl].
Qed.

Lemma distinct_NoDup (ks : list pykey) : distinct ks = true <-> NoDup ks.
Proof.
  induction ks as [|k r IH]; simpl.
  - split; [constructor | reflexivity].
  - rewrite andb_true_iff, negb_true_iff, IH. split.
    + intros [H1 H2]. constructor; [|assumption].
      intros Hin. apply existsb_key_eqb in Hin. congruence.
    + intros H. inversion H as [|? ? Hn Hr]; subst. split; [|assumption].
      destruct (existsb (key_eqb k) r) eqn:E; [|reflexivity].
      apply existsb_key_eqb in E. contradiction.
Qed.

Lemma dict_get_None (d : pydict) (k : pykey) :
  dict_get d k = None <-> ~ In k (keys d).
Proof.
  induction d as [|[k' v] r IH]; simpl.
  - tauto.
  - destruct (key_eqb k' k) eqn:E.
    + apply key_eqb_eq in E. subst. split; [discriminate | tauto].
    + apply key_eqb_neq in E. rewrite IH. tauto.
Qed.

Lemma dict_get_In (d : pydict) (k : pykey) (v : pyval) :
  dict_get d k = Some v -> In (k, v) d.
Proof.
  induction d as [|[k' v'] r IH]; simpl; [discriminate|].
  destruct (key_eqb k' k) eqn:E.
  - apply key_eqb_eq in E. intros [= ->]. subst. now left.
  - intros H. right. auto.
Qed.

Lemma In_dict_get (d : pydict) (k : pykey) (v : pyval) :
  dict_wf d -> In (k, v) d -> dict_get d k = Some v.
Proof.
  unfold dict_wf. induction d as [|[k' v'] r IH]; simpl; [tauto|].
  rewrite andb_true_iff, negb_true_iff. intros [Hk Hr] [H|H].
  - injection H as -> ->. now rewrite key_eqb_refl.
  - destruct (key_eqb k' k) eqn:E; [|auto].
    apply key_eqb_eq in E. subst k'.
    assert (Hin : In k (keys r)) by (apply (in_map fst) in H; exact H).
    apply existsb_key_eqb in Hin. congruence.
Qed.

Lemma dict_get_set_same (d : pydict) (k : pykey) (v : pyval) :
  dict_get (dict_set d k v) k = Some v.
Proof.
  induction d as [|[k' v'] r IH]; simpl.
  - now rewrite key_eqb_refl.
  - destruct (key_eqb k' k) eqn:E; simpl; rewrite E; auto.
Qed.

Lemma dict_get_set_other (d : pydict) (k k' : pykey) (v : pyval) :
  k <> k' -> dict_get (dict_set d k v) k' = dict_get d k'.
Proof.
  intros Hne. induction d as [|[k0 v0] r IH]; simpl.
  - apply key_eqb_neq in Hne. now rewrite Hne.
  - destruct (key_eqb k0 k) eqn:E; simpl.
    + apply key_eqb_eq in E. subst k0.
      apply key_eqb_neq in Hne. now rewrite Hne.
    + now rewrite IH.
Qed.

Lemma dict_set_fresh (d : pydict) (k : pykey) (v : pyval) :
  ~ In k (keys d) -> dict_set d k v = d ++ [(k, v)].
Proof.
  induction d as [|[k' v'] r IH]; simpl; [reflexivity|].
  intros H. destruct (key_eqb k' k) eqn:E.
  - apply key_eqb_eq in E. tauto.
  - f_equal. apply IH. tauto.
Qed.

Lemma keys_dict_set (d : pydict) (k : pykey) (v : pyval) :
  keys (dict_set d k v) = if dict_mem d k then keys d else keys d ++ [k].
Proof.
  unfold dict_mem. induction d as [|[k' v'] r IH]; simpl; [reflexivity|].
  destruct (key_eqb k' k) eqn:E; simpl; [reflexivity|].
  rewrite IH. now destruct (dict_get r k).
Qed.

Lemma dict_set_nonempty (d : pydict) (k : pykey) (v : pyval) :
  nonempty (dict_set d k v) = true.
Proof.
  destruct d as [|[k' v'] r]; simpl; [reflexivity|].
  now destruct (key_eqb k' k).
Qed.

Lemma dict_set_wf (d : pydict) (k : pykey) (v : pyval) :
  dict_wf d -> dict_wf (dict_set d k v).
Proof.
  unfold dict_wf. rewrite keys_dict_set. unfold dict_mem.
  destruct (dict_get d k) eqn:E; [auto|].
  apply dict_get_None in E. rewrite !distinct_NoDup. intros H.
  apply NoDup_app; [assumption | repeat constructor; simpl; tauto |].
  intros x Hx [<-|[]]. contradiction.
Qed.

(** What [dict_set] keeps of a property of the items. *)
Lemma dict_set_Forall (P : pykey * pyval -> Prop) (d : pydict) k v :
  Forall P d -> P (k, v) -> Forall P (dict_set d k v).
Proof.
  intros Hd Hv. induction d as [|[k' v'] r IH]; simpl.
  - repeat constructor. exact Hv.
  - inversion Hd; subst. destruct (key_eqb k' k) eqn:E; constructor; auto.
    apply key_eqb_eq in E. now subst.
Qed.

(** ** The codec *)

Lemma is_ok_emit (c : N) (r : result pystr) : is_ok (emit c r) = is_ok r.
Proof. now destruct r. Qed.

Ltac decode_cases :=
  repeat match goal with
         | |- context [if ?c then _ else _] => destruct c
         | |- context [match ?l with [] => _ | _ :: _ => _ end] => destruct l
         end.

(** Under [errors='ignore'] decoding never raises. *)
Lemma utf8_decode_ignore_fuel (n : nat) :
  forall s, (List.length s <= n)%nat -> is_ok (utf8_decode Ignore s) = true.
Proof.
  induction n as [|n IH]; intros s Hs.
  - destruct s; [reflexivity | simpl in Hs; lia].
  - destruct s as [|b1 s1]; [reflexivity|]. simpl in Hs.
    cbn -[N.ltb is_continuation second_ok3 second_ok4 cp2 cp3 cp4 Byte.to_N].
    decode_cases; rewrite ?is_ok_emit; try reflexivity;
      simpl on_error; apply IH; simpl in *; lia.
Qed.

Lemma utf8_decode_ignore_ok (s : pybytes) :
  exists t, utf8_decode Ignore s = Ok t.
Proof.
  pose proof (utf8_decode_ignore_fuel _ s (Nat.le_refl _)) as H.
  destruct (utf8_decode Ignore s) as [t|e]; [now exists t | discriminate].
Qed.

(** Encoding raises exactly on a surrogate. *)
Lemma encode_codepoint_ok (c : N) :
  is_ok (encode_codepoint c) = negb (is_surrogate c).
Proof.
  unfold encode_codepoint, is_surrogate.
  destruct (N.ltb c 0x80) eqn:E1; [|destruct (N.ltb c 0x800) eqn:E2;
    [|destruct (N.ltb c 0x10000) eqn:E3]]; simpl;
    rewrite ?N.ltb_lt, ?N.ltb_ge in *.
  - destruct (N.leb_spec 0xD800 c); [lia | reflexivity].
  - destruct (N.leb_spec 0xD800 c); [lia | reflexivity].
  - now destruct (N.leb 0xD800 c && N.leb c 0xDFFF)%bool.
  - destruct (N.leb_spec 0xD800 c); destruct (N.leb_spec c 0xDFFF);
      simpl; try reflexivity; lia.
Qed.

Lemma utf8_encode_ok (s : pystr) :
  is_ok (utf8_encode s) = negb (existsb is_surrogate s).
Proof.
  induction s as [|c t IH]; simpl; [reflexivity|].
  pose proof (encode_codepoint_ok c) as Hc.
  destruct (encode_codepoint c) as [b|e]; simpl in *;
    destruct (is_surrogate c); try discriminate; simpl; [|reflexivity].
  destruct (utf8_encode t); simpl in *; assumption.
Qed.

(** ** The codec round trip

    Strict decoding and encoding are inverse to each other: the byte
    strings that decode are exactly the encodings of Unicode texts. *)

Section codec_round_trip.
Local Open Scope N_scope.

Ltac divlia := zify; Z.to_euclidean_division_equations; lia.

Lemma to_N_byte_of (n : N) : n < 256 -> Byte.to_N (byte_of n) = n.
Proof.
  intros H. unfold byte_of. destruct (Byte.of_N n) as [b|] eqn:E.
  - now apply Byte.to_of_N.
  - apply Byte.of_N_None_iff in E. lia.
Qed.

Lemma byte_of_to_N (b : byte) : byte_of (Byte.to_N b) = b.
Proof. unfold byte_of. now rewrite Byte.of_to_N. Qed.

Lemma land_mul_pow2_small (a b k : N) : b < 2 ^ k -> N.land (a * 2 ^ k) b = 0.
Proof.
  intros Hb. apply N.bits_inj. intros i. rewrite N.land_spec, N.bits_0.
  destruct (N.lt_ge_cases i k) as [Hi|Hi].
  - now rewrite N.mul_pow2_bits_low.
  - rewrite <- (N.mod_small b (2 ^ k)) by assumption.
    rewrite N.mod_pow2_bits_high by assumption. apply andb_false_r.
Qed.

Lemma lor_mul_pow2_small (a b k : N) :
  b < 2 ^ k -> N.lor (a * 2 ^ k) b = a * 2 ^ k + b.
Proof.
  intros Hb. pose proof (land_mul_pow2_small a b k Hb) as H0.
  now rewrite <- (N.lxor_lor _ _ H0), (N.add_nocarry_lxor _ _ H0).
Qed.

Lemma cp2_arith ch ch2 : cp2 ch ch2 = ch mod 32 * 64 + ch2 mod 64.
Proof.
  unfold cp2. change 0x1F with (N.ones 5). change 0x3F with (N.ones 6).
  rewrite !N.land_ones, N.shiftl_mul_pow2.
  rewrite lor_mul_pow2_small by (apply N.mod_lt; discriminate).
  reflexivity.
Qed.

Lemma cp3_arith ch ch2 ch3 :
  cp3 ch ch2 ch3 = ch mod 16 * 4096 + (ch2 mod 64 * 64 + ch3 mod 64).
Proof.
  unfold cp3. change 0x0F with (N.ones 4). change 0x3F with (N.ones 6).
  rewrite !N.land_ones, !N.shiftl_mul_pow2.
  rewrite (lor_mul_pow2_small (ch2 mod 2 ^ 6)) by (apply N.mod_lt; discriminate).
  rewrite lor_mul_pow2_small; [reflexivity|].
  change (2 ^ 6) with 64. change (2 ^ 12) with 4096. divlia.
Qed.

Lemma cp4_arith ch ch2 ch3 ch4 :
  cp4 ch ch2 ch3 ch4 =
  ch mod 8 * 262144 + (ch2 mod 64 * 4096 + (ch3 mod 64 * 64 + ch4 mod 64)).
Proof.
  unfold cp4. change 0x07 with (N.ones 3). change 0x3F with (N.ones 6).
  rewrite !N.land_ones, !N.shiftl_mul_pow2.
  rewrite (lor_mul_pow2_small (ch3 mod 2 ^ 6)) by (apply N.mod_lt; discriminate).
  rewrite (lor_mul_pow2_small (ch2 mod 2 ^ 6));
    [|change (2 ^ 6) with 64; change (2 ^ 12) with 4096; divlia].
  rewrite lor_mul_pow2_small; [reflexivity|].
  change (2 ^ 6) with 64. change (2 ^ 12) with 4096.
  change (2 ^ 18) with 262144. divlia.
Qed.

Lemma trail_arith c : trail c = byte_of (128 + c mod 64).
Proof.
  unfold trail. change 0x3F with (N.ones 6). rewrite N.land_ones.
  change 0x80 with (1 * 2 ^ 7). change (2 ^ 6) with 64.
  rewrite lor_mul_pow2_small by (change (2 ^ 7) with 128; divlia).
  reflexivity.
Qed.

Lemma shiftr_div c k : N.shiftr c k = c / 2 ^ k.
Proof. apply N.shiftr_div_pow2. Qed.

Lemma encode_codepoint_arith (c : N) :
  c < 0x110000 ->
  encode_codepoint c =
  if N.ltb c 0x80 then Ok [byte_of c]
  else if N.ltb c 0x800 then
    Ok [byte_of (192 + c / 64); byte_of (128 + c mod 64)]
  else if N.ltb c 0x10000 then
    if is_surrogate c then Raise UnicodeEncodeError
    else Ok [byte_of (224 + c / 4096); byte_of (128 + (c / 64) mod 64);
             byte_of (128 + c mod 64)]
  else
    Ok [byte_of (240 + c / 262144); byte_of (128 + (c / 4096) mod 64);
        byte_of (128 + (c / 64) mod 64); byte_of (128 + c mod 64)].
Proof.
  intros Hc. unfold encode_codepoint. rewrite !trail_arith, !shiftr_div.
  change (2 ^ 6) with 64. change (2 ^ 12) with 4096.
  change (2 ^ 18) with 262144.
  destruct (N.ltb_spec c 0x80); [reflexivity|].
  destruct (N.ltb_spec c 0x800).
  { change 0xC0 with (3 * 2 ^ 6).
    rewrite lor_mul_pow2_small by (change (2 ^ 6) with 64; divlia).
    reflexivity. }
  destruct (N.ltb_spec c 0x10000).
  { change 0xE0 with (7 * 2 ^ 5).
    rewrite lor_mul_pow2_small by (change (2 ^ 5) with 32; divlia).
    reflexivity. }
  change 0x07 with (N.ones 3). rewrite N.land_ones.
  change 0xF0 with (15 * 2 ^ 4). change (2 ^ 3) with 8.
  rewrite lor_mul_pow2_small by (change (2 ^ 4) with 16; divlia).
  rewrite (N.mod_small (c / 262144) 8) by divlia. reflexivity.
Qed.

Lemma is_continuation_spec ch : is_continuation ch = true <-> 0x80 <= ch < 0xC0.
Proof.
  unfold is_continuation. rewrite andb_true_iff, N.leb_le, N.ltb_lt. tauto.
Qed.

Lemma utf8_decode_1 m b1 s :
  Byte.to_N b1 < 0x80 ->
  utf8_decode m (b1 :: s) = emit (Byte.to_N b1) (utf8_decode m s).
Proof. intros H. apply N.ltb_lt in H. simpl. now rewrite H. Qed.

Ltac ltb_false x y :=
  let H := fresh in
  assert (H : N.ltb x y = false) by (apply N.ltb_ge; lia); rewrite H; clear H.
Ltac ltb_true x y :=
  let H := fresh in
  assert (H : N.ltb x y = true) by (apply N.ltb_lt; lia); rewrite H; clear H.

Lemma utf8_decode_2 m b1 b2 s :
  0xC2 <= Byte.to_N b1 < 0xE0 -> is_continuation (Byte.to_N b2) = true ->
  utf8_decode m (b1 :: b2 :: s)
  = emit (cp2 (Byte.to_N b1) (Byte.to_N b2)) (utf8_decode m s).
Proof.
  intros H1 H2.
  cbn -[N.ltb is_continuation second_ok3 second_ok4 cp2 cp3 cp4 Byte.to_N].
  ltb_false (Byte.to_N b1) 0x80. ltb_false (Byte.to_N b1) 0xC2.
  ltb_true (Byte.to_N b1) 0xE0. now rewrite H2.
Qed.

Lemma utf8_decode_3 m b1 b2 b3 s :
  0xE0 <= Byte.to_N b1 < 0xF0 ->
  second_ok3 (Byte.to_N b1) (Byte.to_N b2) = true ->
  is_continuation (Byte.to_N b3) = true ->
  utf8_decode m (b1 :: b2 :: b3 :: s)
  = emit (cp3 (Byte.to_N b1) (Byte.to_N b2) (Byte.to_N b3)) (utf8_decode m s).
Proof.
  intros H1 H2 H3.
  cbn -[N.ltb is_continuation second_ok3 second_ok4 cp2 cp3 cp4 Byte.to_N].
  ltb_false (Byte.to_N b1) 0x80. ltb_false (Byte.to_N b1) 0xC2.
  ltb_false (Byte.to_N b1) 0xE0. ltb_true (Byte.to_N b1) 0xF0.
  now rewrite H2, H3.
Qed.

Lemma utf8_decode_4 m b1 b2 b3 b4 s :
  0xF0 <= Byte.to_N b1 < 0xF5 ->
  second_ok4 (Byte.to_N b1) (Byte.to_N b2) = true ->
  is_continuation (Byte.to_N b3) = true ->
  is_continuation (Byte.to_N b4) = true ->
  utf8_decode m (b1 :: b2 :: b3 :: b4 :: s)
  = emit (cp4 (Byte.to_N b1) (Byte.to_N b2) (Byte.to_N b3) (Byte.to_N b4))
      (utf8_decode m s).
Proof.
  intros H1 H2 H3 H4.
  cbn -[N.ltb is_continuation second_ok3 second_ok4 cp2 cp3 cp4 Byte.to_N].
  ltb_false (Byte.to_N b1) 0x80. ltb_false (Byte.to_N b1) 0xC2.
  ltb_false (Byte.to_N b1) 0xE0. ltb_false (Byte.to_N b1) 0xF0.
  ltb_true (Byte.to_N b1) 0xF5.
  now rewrite H2, H3, H4.
Qed.

Lemma second_ok3_spec ch ch2 :
  second_ok3 ch ch2 = true
  <-> 0x80 <= ch2 < 0xC0 /\ (ch = 0xE0 -> 0xA0 <= ch2) /\ (ch = 0xED -> ch2 < 0xA0).
Proof.
  unfold second_ok3. rewrite andb_true_iff, negb_true_iff, is_continuation_spec.
  destruct (N.ltb_spec ch2 0xA0); rewrite N.eqb_neq; lia.
Qed.

Lemma second_ok4_spec ch ch2 :
  second_ok4 ch ch2 = true
  <-> 0x80 <= ch2 < 0xC0 /\ (ch = 0xF0 -> 0x90 <= ch2) /\ (ch = 0xF4 -> ch2 < 0x90).
Proof.
  unfold second_ok4. rewrite andb_true_iff, negb_true_iff, is_continuation_spec.
  destruct (N.ltb_spec ch2 0x90); rewrite N.eqb_neq; lia.
Qed.

Lemma is_surrogate_spec c : is_surrogate c = true <-> 0xD800 <= c <= 0xDFFF.
Proof.
  unfold is_surrogate. rewrite andb_true_iff, !N.leb_le. tauto.
Qed.

(** Decoding what a code point encodes to gives the code point back. *)
Lemma decode_encode_codepoint m c rest :
  c < 0x110000 ->
  match encode_codepoint c with
  | Ok bs => utf8_decode m (bs ++ rest) = emit c (utf8_decode m rest)
  | Raise _ => True
  end.
Proof.
  intros Hc. rewrite (encode_codepoint_arith c Hc).
  destruct (N.ltb_spec c 0x80);
    [|destruct (N.ltb_spec c 0x800);
      [|destruct (N.ltb_spec c 0x10000);
        [destruct (is_surrogate c) eqn:Es; [exact I|];
         assert (Hs : ~ 0xD800 <= c <= 0xDFFF)
           by (rewrite <- is_surrogate_spec; congruence)|]]];
    cbn [app].
  - rewrite utf8_decode_1; rewrite to_N_byte_of by lia; [reflexivity | lia].
  - rewrite utf8_decode_2; rewrite ?to_N_byte_of by divlia.
    + rewrite cp2_arith. f_equal. divlia.
    + divlia.
    + apply is_continuation_spec. divlia.
  - rewrite utf8_decode_3; rewrite ?to_N_byte_of by divlia.
    + rewrite cp3_arith. f_equal. divlia.
    + divlia.
    + apply second_ok3_spec. divlia.
    + apply is_continuation_spec. divlia.
  - rewrite utf8_decode_4; rewrite ?to_N_byte_of by divlia.
    + rewrite cp4_arith. f_equal. divlia.
    + divlia.
    + apply second_ok4_spec. divlia.
    + apply is_continuation_spec. divlia.
    + apply is_continuation_spec. divlia.
Qed.

Lemma utf8_decode_encode m (s : pystr) :
  Forall (fun c => c < 0x110000) s ->
  forall b, utf8_encode s = Ok b -> utf8_decode m b = Ok s.
Proof.
  induction 1 as [|c t Hc Ht IH]; simpl; intros b.
  - now intros [= <-].
  - destruct (encode_codepoint c) as [bs|e] eqn:Ec; simpl; [|discriminate].
    destruct (utf8_encode t) as [r|e] eqn:Et; simpl; [|discriminate].
    intros [= <-]. pose proof (decode_encode_codepoint m c r Hc) as Hd.
    rewrite Ec in Hd. rewrite Hd, (IH r eq_refl). reflexivity.
Qed.

Lemma emit_Ok c r s : emit c r = Ok s -> exists t, r = Ok t /\ s = c :: t.
Proof.
  destruct r as [t|e]; simpl; [|discriminate]. intros [= <-]. now exists t.
Qed.

Lemma byte_of_eq (n : N) (b : byte) : n = Byte.to_N b -> byte_of n = b.
Proof. intros ->. apply byte_of_to_N. Qed.

Lemma encode_decoded_1 b1 :
  Byte.to_N b1 < 0x80 -> encode_codepoint (Byte.to_N b1) = Ok [b1].
Proof.
  intros H. rewrite encode_codepoint_arith by lia.
  apply N.ltb_lt in H. rewrite H. now rewrite byte_of_to_N.
Qed.

Lemma encode_decoded_2 b1 b2 :
  0xC2 <= Byte.to_N b1 < 0xE0 -> is_continuation (Byte.to_N b2) = true ->
  cp2 (Byte.to_N b1) (Byte.to_N b2) < 0x110000
  /\ encode_codepoint (cp2 (Byte.to_N b1) (Byte.to_N b2)) = Ok [b1; b2].
Proof.
  intros H1 H2. apply is_continuation_spec in H2. rewrite cp2_arith.
  set (c := _ + _).
  assert (Hc : 0x80 <= c < 0x800) by (subst c; divlia).
  split; [lia|]. rewrite encode_codepoint_arith by lia.
  ltb_false c 0x80. ltb_true c 0x800.
  repeat f_equal; apply byte_of_eq; subst c; divlia.
Qed.

Lemma encode_decoded_3 b1 b2 b3 :
  0xE0 <= Byte.to_N b1 < 0xF0 ->
  second_ok3 (Byte.to_N b1) (Byte.to_N b2) = true ->
  is_continuation (Byte.to_N b3) = true ->
  cp3 (Byte.to_N b1) (Byte.to_N b2) (Byte.to_N b3) < 0x110000
  /\ encode_codepoint (cp3 (Byte.to_N b1) (Byte.to_N b2) (Byte.to_N b3))
     = Ok [b1; b2; b3].
Proof.
  intros H1 H2 H3. apply second_ok3_spec in H2.
  apply is_continuation_spec in H3. rewrite cp3_arith.
  set (c := _ + _).
  assert (Hc : 0x800 <= c < 0x10000 /\ ~ 0xD800 <= c <= 0xDFFF)
    by (subst c; divlia).
  split; [lia|]. rewrite encode_codepoint_arith by lia.
  ltb_false c 0x80. ltb_false c 0x800. ltb_true c 0x10000.
  destruct (is_surrogate c) eqn:Es;
    [apply is_surrogate_spec in Es; lia|].
  repeat f_equal; apply byte_of_eq; subst c; divlia.
Qed.

Lemma encode_decoded_4 b1 b2 b3 b4 :
  0xF0 <= Byte.to_N b1 < 0xF5 ->
  second_ok4 (Byte.to_N b1) (Byte.to_N b2) = true ->
  is_continuation (Byte.to_N b3) = true ->
  is_continuation (Byte.to_N b4) = true ->
  cp4 (Byte.to_N b1) (Byte.to_N b2) (Byte.to_N b3) (Byte.to_N b4) < 0x110000
  /\ encode_codepoint
       (cp4 (Byte.to_N b1) (Byte.to_N b2) (Byte.to_N b3) (Byte.to_N b4))
     = Ok [b1; b2; b3; b4].
Proof.
  intros H1 H2 H3 H4. apply second_ok4_spec in H2.
  apply is_continuation_spec in H3. apply is_continuation_spec in H4.
  rewrite cp4_arith. set (c := _ + _).
  assert (Hc : 0x10000 <= c < 0x110000) by (subst c; divlia).
  split; [lia|]. rewrite encode_codepoint_arith by lia.
  ltb_false c 0x80. ltb_false c 0x800. ltb_false c 0x10000.
  repeat f_equal; apply byte_of_eq; subst c; divlia.
Qed.

Lemma utf8_encode_cons c t bs r :
  encode_codepoint c = Ok bs -> utf8_encode t = Ok r ->
  utf8_encode (c :: t) = Ok (bs ++ r).
Proof. intros Hc Ht. simpl. now rewrite Hc, Ht. Qed.

(** What decodes strictly is the encoding of what it decodes to. *)
Lemma utf8_encode_decode_fuel (n : nat) :
  forall b s, (List.length b <= n)%nat ->
    utf8_decode Strict b = Ok s ->
    utf8_encode s = Ok b /\ Forall (fun c => c < 0x110000) s.
Proof.
  induction n as [|n IH]; intros b s Hn.
  - destruct b; [|simpl in Hn; lia]. intros [= <-]. now split.
  - destruct b as [|b1 s1]; [intros [= <-]; now split|]. simpl in Hn.
    cbn -[N.ltb is_continuation second_ok3 second_ok4 cp2 cp3 cp4 Byte.to_N].
    destruct (N.ltb_spec (Byte.to_N b1) 0x80) as [L1|L1].
    { intros H. apply emit_Ok in H. destruct H as (t & Ht & ->).
      destruct (IH s1 t) as [He Hu]; [lia | assumption |].
      split; [|constructor; [lia | assumption]].
      now apply (utf8_encode_cons _ _ [b1]); [apply encode_decoded_1|]. }
    destruct (N.ltb_spec (Byte.to_N b1) 0xC2) as [L2|L2]; [discriminate|].
    destruct (N.ltb_spec (Byte.to_N b1) 0xE0) as [L3|L3].
    { destruct s1 as [|b2 s2]; [discriminate|].
      destruct (is_continuation (Byte.to_N b2)) eqn:C2; [|discriminate].
      intros H. apply emit_Ok in H. destruct H as (t & Ht & ->).
      destruct (IH s2 t) as [He Hu]; [simpl in Hn; lia | assumption |].
      destruct (encode_decoded_2 b1 b2) as [Hc Henc]; [lia | assumption |].
      split; [|now constructor].
      now apply (utf8_encode_cons _ _ [b1; b2]). }
    destruct (N.ltb_spec (Byte.to_N b1) 0xF0) as [L4|L4].
    { destruct s1 as [|b2 s2]; [discriminate|].
      destruct (second_ok3 (Byte.to_N b1) (Byte.to_N b2)) eqn:C2;
        [|discriminate].
      destruct s2 as [|b3 s3]; [discriminate|].
      destruct (is_continuation (Byte.to_N b3)) eqn:C3; [|discriminate].
      intros H. apply emit_Ok in H. destruct H as (t & Ht & ->).
      destruct (IH s3 t) as [He Hu]; [simpl in Hn; lia | assumption |].
      destruct (encode_decoded_3 b1 b2 b3) as [Hc Henc];
        [lia | assumption | assumption |].
      split; [|now constructor].
      now apply (utf8_encode_cons _ _ [b1; b2; b3]). }
    destruct (N.ltb_spec (Byte.to_N b1) 0xF5) as [L5|L5]; [|discriminate].
    destruct s1 as [|b2 s2]; [discriminate|].
    destruct (second_ok4 (Byte.to_N b1) (Byte.to_N b2)) eqn:C2;
      [|discriminate].
    destruct s2 as [|b3 s3]; [discriminate|].
    destruct (is_continuation (Byte.to_N b3)) eqn:C3; [|discriminate].
    destruct s3 as [|b4 s4]; [discriminate|].
    destruct (is_continuation (Byte.to_N b4)) eqn:C4; [|discriminate].
    intros H. apply emit_Ok in H. destruct H as (t & Ht & ->).
    destruct (IH s4 t) as [He Hu]; [simpl in Hn; lia | assumption |].
    destruct (encode_decoded_4 b1 b2 b3 b4) as [Hc Henc];
      [lia | assumption | assumption | assumption |].
    split; [|now constructor].
    now apply (utf8_encode_cons _ _ [b1; b2; b3; b4]).
Qed.

Lemma utf8_encode_decode (b : pybytes) (s : pystr) :
  utf8_decode Strict b = Ok s -> utf8_encode s = Ok b /\ unicode s.
Proof. apply (utf8_encode_decode_fuel (List.length b)). apply Nat.le_refl. Qed.

End codec_round_trip.

(** ** The sanitizer, tag by tag *)

Lemma tuple_check (l : list pyval) :
  ((Nat.eqb (List.length l) 2 && forallb is_int l) && forallb int32_value l)%bool
  = rational_in_range l.
Proof.
  destruct l as [|a [|b [|c r]]]; try reflexivity.
  simpl. unfold is_int, int32_value.
  destruct (as_int a) as [x|], (as_int b) as [y|]; simpl;
    try reflexivity; destruct (int32 x); try destruct (int32 y); reflexivity.
Qed.

Lemma int32_b2z (b : bool) : int32 (Z.b2z b) = true.
Proof. now destruct b. Qed.

Lemma int32_spec (z : Z) :
  int32 z = true <-> (-2147483648 <= z <= 2147483647)%Z.
Proof.
  unfold int32. rewrite andb_true_iff, !Z.leb_le. tauto.
Qed.

(** The dispatch in terms of the contract: a surviving value is stored
    (text as its UTF-8 bytes), any other is left out. *)
Lemma clean_tag_value_spec (v : pyval) :
  clean_tag_value v =
  match v with
  | PStr s => e <- utf8_encode s ;; Ok (Some (PBytes e))
  | _ => Ok (if value_survives v then Some v else None)
  end.
Proof.
  destruct v as [ | b | z | f | s | b | l | l | d | s ]; simpl;
    try reflexivity.
  - now rewrite int32_b2z.
  - now destruct (int32 z).
  - now destruct (utf8_decode_ignore_ok b) as [t ->].
  - rewrite <- tuple_check.
    destruct (Nat.eqb (List.length l) 2 && forallb is_int l)%bool; simpl;
      [now destruct (forallb int32_value l) | reflexivity].
Qed.

Lemma clean_tag_value_ok (v : pyval) :
  is_ok (clean_tag_value v) = negb (unencodable v).
Proof.
  rewrite clean_tag_value_spec. destruct v; try reflexivity.
  simpl. rewrite <- utf8_encode_ok. now destruct (utf8_encode s).
Qed.

Lemma clean_tag_value_settled (v v' : pyval) :
  clean_tag_value v = Ok (Some v') -> settled_value v' = true.
Proof.
  rewrite clean_tag_value_spec.
  destruct v; simpl;
    try (destruct (utf8_encode s); simpl; intros [= <-]; reflexivity);
    try discriminate;
    try (intros [= <-]; reflexivity).
  - destruct (int32 z) eqn:E; intros [= <-]. exact E.
  - destruct (rational_in_range l) eqn:E; intros [= <-]. exact E.
Qed.

Lemma settled_value_kept (v : pyval) :
  settled_value v = true -> clean_tag_value v = Ok (Some v).
Proof.
  rewrite clean_tag_value_spec.
  destruct v; simpl; try discriminate; try reflexivity;
    now intros ->.
Qed.

(** ** The inner loop *)

Lemma clean_ifd_ok (items : pydict) :
  forall acc, is_ok (clean_ifd items acc) = ifd_encodable items.
Proof.
  induction items as [|[k v] r IH]; intros acc; simpl; [reflexivity|].
  destruct (in_problematic_tags k); simpl; [apply IH|].
  rewrite <- clean_tag_value_ok.
  destruct (clean_tag_value v) as [[v'|]|e]; simpl;
    [apply IH | apply IH | reflexivity].
Qed.

Lemma clean_ifd_invariant (items : pydict) :
  forall acc out,
    clean_ifd items acc = Ok out ->
    dict_wf acc -> Forall (fun kv => settled_tag kv = true) acc ->
    dict_wf out /\ Forall (fun kv => settled_tag kv = true) out.
Proof.
  induction items as [|[k v] r IH]; intros acc out; simpl.
  - intros [= <-]. auto.
  - destruct (in_problematic_tags k) eqn:Ek; [apply IH|].
    destruct (clean_tag_value v) as [[v'|]|e] eqn:Ev; simpl;
      [| apply IH | discriminate].
    intros H Hwf Hall. apply (IH _ _ H).
    + now apply dict_set_wf.
    + apply dict_set_Forall; [assumption|].
      unfold settled_tag. simpl.
      now rewrite Ek, (clean_tag_value_settled _ _ Ev).
Qed.

Lemma clean_ifd_settled (items : pydict) :
  forall acc,
    forallb settled_tag items = true ->
    distinct (keys acc ++ keys items) = true ->
    clean_ifd items acc = Ok (acc ++ items).
Proof.
  induction items as [|[k v] r IH]; intros acc; simpl.
  - intros _ _. now rewrite app_nil_r.
  - unfold settled_tag at 1. simpl.
    rewrite !andb_true_iff, negb_true_iff. intros [[Hk Hv] Hr] Hd.
    rewrite Hk, (settled_value_kept _ Hv). simpl.
    apply distinct_NoDup in Hd.
    assert (Hfresh : ~ In k (keys acc)).
    { intros Hin. apply NoDup_remove_2 in Hd. apply Hd.
      apply in_or_app. now left. }
    rewrite (dict_set_fresh _ _ _ Hfresh), IH.
    + now rewrite <- app_assoc.
    + assumption.
    + unfold keys in *. rewrite map_app, <- app_assoc. simpl.
      now apply distinct_NoDup.
Qed.

(** The fate of one tag of a well-formed group. *)
Lemma clean_ifd_get (items : pydict) :
  forall acc out k,
    clean_ifd items acc = Ok out -> dict_wf items ->
    dict_get out k =
    match dict_get items k with
    | Some v =>
        if in_problematic_tags k then dict_get acc k
        else match clean_tag_value v with
             | Ok (Some v') => Some v'
             | _ => dict_get acc k
             end
    | None => dict_get acc k
    end.
Proof.
  unfold dict_wf.
  induction items as [|[k0 v0] r IH]; intros acc out k; simpl.
  - now intros [= <-] _.
  - rewrite andb_true_iff, negb_true_iff. intros H [Hk0 Hr].
    assert (Hnone : dict_get r k0 = None).
    { apply dict_get_None. intros Hin.
      apply existsb_key_eqb in Hin. congruence. }
    destruct (key_eqb k0 k) eqn:E.
    + apply key_eqb_eq in E. subst k0.
      destruct (in_problematic_tags k).
      * rewrite (IH _ _ k H Hr), Hnone. reflexivity.
      * destruct (clean_tag_value v0) as [[v'|]|e]; simpl in H;
          try discriminate; rewrite (IH _ _ k H Hr), Hnone;
          [apply dict_get_set_same | reflexivity].
    + apply key_eqb_neq in E.
      destruct (in_problematic_tags k0); [now apply IH|].
      destruct (clean_tag_value v0) as [[v'|]|e]; simpl in H;
        try discriminate; rewrite (IH _ _ k H Hr);
        rewrite ?(dict_get_set_other _ _ _ _ E); reflexivity.
Qed.

Lemma clean_ifd_nonempty (items : pydict) :
  forall acc out,
    clean_ifd items acc = Ok out ->
    nonempty out = (nonempty acc || existsb tag_survives items)%bool.
Proof.
  induction items as [|[k v] r IH]; intros acc out; simpl.
  - intros [= <-]. now rewrite orb_false_r.
  - unfold tag_survives at 1. simpl.
    destruct (in_problematic_tags k); simpl; [apply IH|].
    rewrite clean_tag_value_spec.
    destruct v; simpl;
      try (destruct (utf8_encode s); simpl; [|discriminate]);
      try match goal with
          | |- context [if ?c then Some _ else None] => destruct c
          end;
      intros H; rewrite (IH _ _ H), ?dict_set_nonempty, ?orb_true_r;
      reflexivity.
Qed.

(** ** The outer loop *)

Lemma clean_ifd_settled_ifd (ifd out : pydict) :
  clean_ifd ifd [] = Ok out -> nonempty out = true -> settled_ifd out = true.
Proof.
  intros H Hne.
  destruct (clean_ifd_invariant ifd [] out H) as [Hwf Hall];
    [reflexivity | constructor |].
  unfold settled_ifd. rewrite Hne, Hwf. simpl.
  apply forallb_forall. now apply Forall_forall.
Qed.

Lemma clean_groups_ok (items : pydict) :
  forall acc, is_ok (clean_groups items acc) = tree_encodable items.
Proof.
  induction items as [|[name v] r IH]; intros acc; simpl; [reflexivity|].
  destruct v; simpl;
    try match goal with
        | |- context [if ?c then _ else _] => destruct c
        end; try apply IH.
  rewrite <- (clean_ifd_ok d []).
  destruct (clean_ifd d []) as [c|e]; simpl; [|reflexivity].
  destruct (nonempty c); apply IH.
Qed.

Lemma clean_groups_invariant (items : pydict) :
  forall acc out,
    clean_groups items acc = Ok out ->
    dict_wf acc -> Forall (fun kv => settled_entry (snd kv) = true) acc ->
    dict_wf out /\ Forall (fun kv => settled_entry (snd kv) = true) out.
Proof.
  induction items as [|[name v] r IH]; intros acc out; simpl.
  - intros [= <-]. auto.
  - destruct v; simpl;
      try (intros H Hwf Hall; apply (IH _ _ H);
           [now apply dict_set_wf | now apply dict_set_Forall]);
      try apply IH.
    destruct (clean_ifd d []) as [c|e] eqn:Ec; simpl; [|discriminate].
    destruct (nonempty c) eqn:En; [|apply IH].
    intros H Hwf Hall. apply (IH _ _ H).
    + now apply dict_set_wf.
    + apply dict_set_Forall; [assumption|]. simpl.
      now apply (clean_ifd_settled_ifd d).
Qed.

Lemma clean_groups_nonempty (items : pydict) :
  forall acc out,
    clean_groups items acc = Ok out ->
    nonempty out = (nonempty acc || existsb entry_survives items)%bool.
Proof.
  induction items as [|[name v] r IH]; intros acc out; simpl.
  - intros [= <-]. now rewrite orb_false_r.
  - unfold entry_survives at 1.
    destruct v; simpl; try apply IH;
      try (intros H; rewrite (IH _ _ H), dict_set_nonempty, orb_true_r;
           reflexivity).
    destruct (clean_ifd d []) as [c|e] eqn:Ec; simpl; [|discriminate].
    pose proof (clean_ifd_nonempty d [] c Ec) as Hc. simpl in Hc.
    rewrite <- Hc. destruct (nonempty c); [|apply IH].
    intros H. now rewrite (IH _ _ H), dict_set_nonempty, orb_true_r.
Qed.

Lemma clean_groups_get (items : pydict) :
  forall acc out name,
    clean_groups items acc = Ok out -> dict_wf items ->
    dict_get out name =
    match dict_get items name with
    | Some v =>
        match cleaned_entry v with
        | Some v' => Some v'
        | None => dict_get acc name
        end
    | None => dict_get acc name
    end.
Proof.
  unfold dict_wf.
  induction items as [|[k0 v0] r IH]; intros acc out name; simpl.
  - now intros [= <-] _.
  - rewrite andb_true_iff, negb_true_iff. intros H [Hk0 Hr].
    assert (Hnone : dict_get r k0 = None).
    { apply dict_get_None. intros Hin.
      apply existsb_key_eqb in Hin. congruence. }
    assert (Hstep : exists acc',
               clean_groups r acc' = Ok out /\
               acc' = match cleaned_entry v0 with
                      | Some v' => dict_set acc k0 v'
                      | None => acc
                      end).
    { destruct v0; simpl in *; eauto.
      destruct (clean_ifd d []) as [c|e]; simpl in *; [|discriminate].
      destruct (nonempty c); eauto. }
    destruct Hstep as (acc' & Hrest & ->).
    rewrite (IH _ _ name Hrest Hr).
    destruct (key_eqb k0 name) eqn:E.
    + apply key_eqb_eq in E. subst k0. rewrite Hnone.
      destruct (cleaned_entry v0); [apply dict_get_set_same | reflexivity].
    + apply key_eqb_neq in E.
      destruct (cleaned_entry v0);
        rewrite ?(dict_get_set_other _ _ _ _ E); reflexivity.
Qed.

Lemma clean_groups_settled (items : pydict) :
  forall acc,
    forallb (fun kv => settled_entry (snd kv)) items = true ->
    distinct (keys acc ++ keys items) = true ->
    clean_groups items acc = Ok (acc ++ items).
Proof.
  induction items as [|[name v] r IH]; intros acc; simpl.
  - intros _ _. now rewrite app_nil_r.
  - rewrite andb_true_iff. intros [Hv Hr] Hd.
    apply distinct_NoDup in Hd.
    assert (Hfresh : ~ In name (keys acc)).
    { intros Hin. apply NoDup_remove_2 in Hd. apply Hd.
      apply in_or_app. now left. }
    assert (Hnext : distinct (keys (acc ++ [(name, v)]) ++ keys r) = true).
    { unfold keys in *. rewrite map_app, <- app_assoc. simpl.
      now apply distinct_NoDup. }
    assert (Hgo : clean_groups r (dict_set acc name v)
                  = Ok (acc ++ (name, v) :: r)).
    { rewrite (dict_set_fresh _ _ _ Hfresh), (IH _ Hr Hnext).
      now rewrite <- app_assoc. }
    destruct v; simpl in Hv; try discriminate; try exact Hgo.
    unfold settled_ifd in Hv. rewrite !andb_true_iff in Hv.
    destruct Hv as [[Hne Hdist] Hall].
    rewrite (clean_ifd_settled d []); [|assumption|exact Hdist].
    simpl. rewrite Hne. exact Hgo.
Qed.

(** ** The sanitizer as a whole *)

Lemma clean_exif_data_dict (items : pydict) :
  clean_exif_data (PDict items) =
  match clean_groups items [] with
  | Ok out => if nonempty out then PDict out else PNone
  | Raise _ => PNone
  end.
Proof.
  unfold clean_exif_data. simpl. now destruct items.
Qed.

Lemma clean_exif_data_inv (exif_dict : pyval) (out : pydict) :
  clean_exif_data exif_dict = PDict out ->
  exists items, exif_dict = PDict items /\ clean_groups items [] = Ok out.
Proof.
  unfold clean_exif_data.
  destruct (negb (truthy exif_dict)); [discriminate|].
  destruct exif_dict; simpl; try discriminate.
  destruct (clean_groups d []) as [c|e] eqn:E; [|discriminate].
  destruct (nonempty c); [|discriminate].
  intros [= ->]. now exists d.
Qed.

Lemma clean_exif_data_shape (exif_dict : pyval) :
  clean_exif_data exif_dict = PNone
  \/ exists out, clean_exif_data exif_dict = PDict out.
Proof.
  unfold clean_exif_data.
  destruct (negb (truthy exif_dict)); [now left|].
  destruct (clean_exif_body exif_dict) as [c|e]; [|now left].
  destruct (nonempty c); [right; now exists c | now left].
Qed.

(** Every result is a sanitized tree ... *)
Lemma clean_exif_data_sanitized (exif_dict : pyval) (out : pydict) :
  clean_exif_data exif_dict = PDict out -> sanitized_tree out = true.
Proof.
  intros H. pose proof H as H0.
  destruct (clean_exif_data_inv _ _ H) as (items & -> & Hg).
  rewrite clean_exif_data_dict, Hg in H0.
  destruct (nonempty out) eqn:Hne; [|discriminate].
  destruct (clean_groups_invariant items [] out Hg) as [Hwf Hall];
    [reflexivity | constructor |].
  unfold sanitized_tree. rewrite Hne, Hwf. simpl.
  apply forallb_forall. now apply Forall_forall.
Qed.

(** ... and a sanitized tree is left as it is. *)
Lemma sanitized_tree_fixpoint (groups : pydict) :
  sanitized_tree groups = true -> clean_exif_data (PDict groups) = PDict groups.
Proof.
  unfold sanitized_tree. rewrite !andb_true_iff. intros [[Hne Hd] Hall].
  rewrite clean_exif_data_dict, (clean_groups_settled groups []);
    [|assumption|exact Hd].
  simpl. now rewrite Hne.
Qed.

Lemma sanitized_tree_entry (groups : pydict) (name : pykey) (v : pyval) :
  sanitized_tree groups = true -> In (name, v) groups ->
  settled_entry v = true.
Proof.
  unfold sanitized_tree. rewrite !andb_true_iff. intros [_ Hall] Hin.
  rewrite forallb_forall in Hall. exact (Hall _ Hin).
Qed.

(** C1.  No group mapping of a sanitized result holds a tag whose id is in
    the denylist 41729, 40961, 40962, 40963, 34665, 34853. *)
Theorem clean_exif_data_drops_problematic_tags
  (exif_dict : pyval) (cleaned : pydict) (ifd_name : pykey) (ifd : pydict)
  (tag_id : Z) (tag_value : pyval) :
  clean_exif_data exif_dict = PDict cleaned ->
  In (ifd_name, PDict ifd) cleaned ->
  In (KInt tag_id, tag_value) ifd ->
  ~ In tag_id [41729; 40961; 40962; 40963; 34665; 34853]%Z.
Proof.
  intros Hc Hg Ht Hbad.
  apply clean_exif_data_sanitized in Hc.
  pose proof (sanitized_tree_entry _ _ _ Hc Hg) as Hs. simpl in Hs.
  unfold settled_ifd in Hs. rewrite !andb_true_iff in Hs.
  destruct Hs as [_ Hall]. rewrite forallb_forall in Hall.
  specialize (Hall _ Ht). unfold settled_tag in Hall.
  rewrite andb_true_iff, negb_true_iff in Hall. destruct Hall as [Hk _].
  cbn [fst in_problematic_tags] in Hk.
  assert (Hin : existsb (Z.eqb tag_id) problematic_tags = true).
  { apply existsb_exists. exists tag_id. split; [exact Hbad | apply Z.eqb_refl]. }
  congruence.
Qed.

(** ** The fate of a tag *)

Lemma tree_encodable_group (groups : pydict) (name : pykey) (ifd : pydict) :
  tree_encodable groups = true -> In (name, PDict ifd) groups ->
  ifd_encodable ifd = true.
Proof.
  unfold tree_encodable. rewrite forallb_forall. intros H Hin.
  exact (H _ Hin).
Qed.

(** A tag outside the denylist of a group of a well-formed tree ends up
    with what the dispatch stores for its value, unless the sanitizer
    gives up on the tree. *)
Lemma tree_tag_clean_exif_data
  (groups : pydict) (ifd_name : pykey) (ifd : pydict)
  (tag_id : pykey) (tag_value : pyval) :
  dict_wf groups -> dict_wf ifd ->
  dict_get groups ifd_name = Some (PDict ifd) ->
  dict_get ifd tag_id = Some tag_value ->
  in_problematic_tags tag_id = false ->
  tree_tag (clean_exif_data (PDict groups)) ifd_name tag_id =
  if tree_encodable groups then
    match clean_tag_value tag_value with
    | Ok (Some v) => Some v
    | _ => None
    end
  else None.
Proof.
  intros Hwf Hwfi Hg Ht Hk.
  rewrite clean_exif_data_dict, <- (clean_groups_ok groups []).
  destruct (clean_groups groups []) as [out|e] eqn:Eg; simpl; [|reflexivity].
  assert (Henc : ifd_encodable ifd = true).
  { apply (tree_encodable_group groups ifd_name).
    - rewrite <- (clean_groups_ok groups []), Eg. reflexivity.
    - now apply dict_get_In. }
  rewrite <- (clean_ifd_ok ifd []) in Henc.
  destruct (clean_ifd ifd []) as [c|e] eqn:Ec; [clear Henc|discriminate].
  pose proof (clean_ifd_get ifd [] c tag_id Ec Hwfi) as Hc.
  rewrite Ht, Hk in Hc. simpl in Hc.
  assert (Hout : tree_tag (PDict out) ifd_name tag_id = dict_get c tag_id).
  { simpl. rewrite (clean_groups_get groups [] out ifd_name Eg Hwf), Hg.
    simpl. rewrite Ec. destruct c; reflexivity. }
  rewrite <- Hc, <- Hout.
  destruct out; [|reflexivity]. reflexivity.
Qed.

(** C2 (as amended).  In a well-formed tree, a tag outside the denylist
    whose value is an integer appears in the sanitized output exactly when
    the value lies in [-2147483648, 2147483647] and the sanitizer does not
    give up on the tree (no text value it has to encode holds a
    surrogate); a tag that appears holds the very value it had. *)
Theorem clean_exif_data_integer_tag
  (groups : pydict) (ifd_name : pykey) (ifd : pydict)
  (tag_id : pykey) (tag_value : pyval) (z : Z) :
  dict_wf groups -> dict_wf ifd ->
  dict_get groups ifd_name = Some (PDict ifd) ->
  dict_get ifd tag_id = Some tag_value ->
  in_problematic_tags tag_id = false ->
  as_int tag_value = Some z ->
  ((exists v, tree_tag (clean_exif_data (PDict groups)) ifd_name tag_id = Some v)
   <-> ((-2147483648 <= z <= 2147483647)%Z /\ tree_encodable groups = true))
  /\ (forall v,
        tree_tag (clean_exif_data (PDict groups)) ifd_name tag_id = Some v ->
        v = tag_value).
Proof.
  intros Hwf Hwfi Hg Ht Hk Hz.
  rewrite (tree_tag_clean_exif_data _ _ _ _ _ Hwf Hwfi Hg Ht Hk).
  assert (Hv : clean_tag_value tag_value
               = Ok (if int32 z then Some tag_value else None)).
  { destruct tag_value; try discriminate; injection Hz as <-; simpl;
      match goal with |- context [int32 ?x] => now destruct (int32 x) end. }
  rewrite Hv. pose proof (int32_spec z) as Hr.
  destruct (tree_encodable groups), (int32 z); simpl; split;
    try (intros v [= <-]; reflexivity); try (intros v [=]).
  - split; [intros _; split; [now apply Hr | reflexivity]
           | intros _; eexists; reflexivity].
  - split; [intros [v [=]] | intros [H _]; apply Hr in H; discriminate].
  - split; [intros [v [=]] | intros [_ [=]]].
  - split; [intros [v [=]] | intros [_ [=]]].
Qed.

Lemma int32_value_spec (v : pyval) :
  int32_value v = true
  <-> exists z, as_int v = Some z /\ (-2147483648 <= z <= 2147483647)%Z.
Proof.
  unfold int32_value. destruct (as_int v) as [z|].
  - rewrite int32_spec. split.
    + intros H. now exists z.
    + now intros (z' & [= <-] & H).
  - split; [discriminate | now intros (z' & [=] & _)].
Qed.

Lemma rational_in_range_spec (l : list pyval) :
  rational_in_range l = true
  <-> exists a b x y,
        l = [a; b] /\ as_int a = Some x /\ as_int b = Some y
        /\ (-2147483648 <= x <= 2147483647)%Z
        /\ (-2147483648 <= y <= 2147483647)%Z.
Proof.
  split.
  - destruct l as [|a [|b [|c r]]]; simpl; try discriminate.
    rewrite andb_true_iff, !int32_value_spec.
    intros [(x & Hx & Rx) (y & Hy & Ry)]. now exists a, b, x, y.
  - intros (a & b & x & y & -> & Hx & Hy & Rx & Ry). simpl.
    apply andb_true_iff. split; apply int32_value_spec; eauto.
Qed.

(** C3 (as amended).  In a well-formed tree, a tag outside the denylist
    whose value is a tuple appears in the sanitized output exactly when
    the tuple has two components, both integers in
    [-2147483648, 2147483647], and the sanitizer does not give up on the
    tree; a tag that appears holds the very tuple it had. *)
Theorem clean_exif_data_rational_tag
  (groups : pydict) (ifd_name : pykey) (ifd : pydict)
  (tag_id : pykey) (components : list pyval) :
  dict_wf groups -> dict_wf ifd ->
  dict_get groups ifd_name = Some (PDict ifd) ->
  dict_get ifd tag_id = Some (PTuple components) ->
  in_problematic_tags tag_id = false ->
  ((exists v, tree_tag (clean_exif_data (PDict groups)) ifd_name tag_id = Some v)
   <-> ((exists a b x y,
            components = [a; b] /\ as_int a = Some x /\ as_int b = Some y
            /\ (-2147483648 <= x <= 2147483647)%Z
            /\ (-2147483648 <= y <= 2147483647)%Z)
        /\ tree_encodable groups = true))
  /\ (forall v,
        tree_tag (clean_exif_data (PDict groups)) ifd_name tag_id = Some v ->
        v = PTuple components).
Proof.
  intros Hwf Hwfi Hg Ht Hk.
  rewrite (tree_tag_clean_exif_data _ _ _ _ _ Hwf Hwfi Hg Ht Hk).
  rewrite clean_tag_value_spec. cbn [value_survives].
  pose proof (rational_in_range_spec components) as Hr.
  destruct (tree_encodable groups), (rational_in_range components); simpl;
    split; try (intros v [= <-]; reflexivity); try (intros v [=]).
  - split; [intros _; split; [now apply Hr | reflexivity]
           | intros _; eexists; reflexivity].
  - split; [intros [v [=]] | intros [H _]; apply Hr in H; discriminate].
  - split; [intros [v [=]] | intros [_ [=]]].
  - split; [intros [v [=]] | intros [_ [=]]].
Qed.

(** C9 (as amended).  In a well-formed tree, for a tag outside the
    denylist whose value is binary, the permissive UTF-8 decode is only a
    probe: were it to fail the tag would be dropped; when it succeeds (it
    always does) the tag is kept with the very bytes it had, as long as
    the sanitizer does not give up on the tree. *)
Theorem clean_exif_data_binary_tag
  (groups : pydict) (ifd_name : pykey) (ifd : pydict)
  (tag_id : pykey) (blob : pybytes) :
  dict_wf groups -> dict_wf ifd ->
  dict_get groups ifd_name = Some (PDict ifd) ->
  dict_get ifd tag_id = Some (PBytes blob) ->
  in_problematic_tags tag_id = false ->
  (forall e, utf8_decode Ignore blob = Raise e ->
             tree_tag (clean_exif_data (PDict groups)) ifd_name tag_id = None)
  /\ (forall s, utf8_decode Ignore blob = Ok s ->
                tree_encodable groups = true ->
                tree_tag (clean_exif_data (PDict groups)) ifd_name tag_id
                = Some (PBytes blob))
  /\ (exists s, utf8_decode Ignore blob = Ok s).
Proof.
  intros Hwf Hwfi Hg Ht Hk.
  rewrite (tree_tag_clean_exif_data _ _ _ _ _ Hwf Hwfi Hg Ht Hk).
  cbn [clean_tag_value].
  destruct (utf8_decode Ignore blob) as [s|e] eqn:E.
  - split; [discriminate|]. split; [|now exists s].
    now intros _ _ ->.
  - split; [|split].
    + intros _ _. now destruct (tree_encodable groups).
    + discriminate.
    + destruct (utf8_decode_ignore_ok blob) as [s Hs]. congruence.
Qed.

(** ** Idempotence and the shape of the result *)

(** C6 (as amended).  Sanitizing twice yields what sanitizing once yields;
    and a tree of the sanitized shape (no empty group, no denylisted tag,
    binary values, integers and two-integer tuples in range, top-level
    entries that are groups or basic values) sanitizes to itself.  Text
    in a group is outside this shape: it is stored as its UTF-8 bytes. *)
Theorem clean_exif_data_idempotent :
  (forall exif_dict,
      clean_exif_data (clean_exif_data exif_dict) = clean_exif_data exif_dict)
  /\ (forall groups,
        sanitized_tree groups = true ->
        clean_exif_data (PDict groups) = PDict groups).
Proof.
  split.
  - intros exif_dict.
    destruct (clean_exif_data_shape exif_dict) as [H|[out H]]; rewrite H.
    + reflexivity.
    + apply sanitized_tree_fixpoint.
      now apply (clean_exif_data_sanitized exif_dict).
  - exact sanitized_tree_fixpoint.
Qed.

Lemma tree_entry_clean_exif_data (groups : pydict) (name : pykey) :
  tree_entry (clean_exif_data (PDict groups)) name =
  match clean_groups groups [] with
  | Ok out => dict_get out name
  | Raise _ => None
  end.
Proof.
  rewrite clean_exif_data_dict.
  destruct (clean_groups groups []) as [[|kv out]|e]; reflexivity.
Qed.

(** C7 (as amended).  The sanitizer returns None on None, and on a tree
    exactly when the tree is empty, or nothing survives filtering, or it
    gives up because a text value cannot be encoded.  In a well-formed
    tree a group whose filtered contents are empty is absent from the
    result, and a top-level entry that is not a mapping is passed through
    unchanged if it is binary, text or an integer (and the sanitizer does
    not give up), and is dropped otherwise. *)
Theorem clean_exif_data_result :
  clean_exif_data PNone = PNone
  /\ (forall groups,
        clean_exif_data (PDict groups) = PNone
        <-> groups = [] \/ existsb entry_survives groups = false
            \/ tree_encodable groups = false)
  /\ (forall groups name ifd,
        dict_wf groups ->
        dict_get groups name = Some (PDict ifd) ->
        existsb tag_survives ifd = false ->
        tree_entry (clean_exif_data (PDict groups)) name = None)
  /\ (forall groups name v,
        dict_wf groups ->
        dict_get groups name = Some v ->
        (forall ifd, v <> PDict ifd) ->
        tree_entry (clean_exif_data (PDict groups)) name =
        if (is_basic v && tree_encodable groups)%bool then Some v else None).
Proof.
  split; [reflexivity|]. split; [|split].
  - intros groups. rewrite clean_exif_data_dict, <- (clean_groups_ok groups []).
    destruct (clean_groups groups []) as [out|e] eqn:E; simpl.
    + pose proof (clean_groups_nonempty groups [] out E) as Hne.
      simpl in Hne. rewrite <- Hne.
      destruct (nonempty out) eqn:Eo.
      * split; [discriminate|]. intros [->|[H|H]]; try discriminate.
        all: simpl in E; injection E as <-; discriminate.
      * split; auto.
    + split; auto.
  - intros groups name ifd Hwf Hg Hnone.
    rewrite tree_entry_clean_exif_data.
    destruct (clean_groups groups []) as [out|e] eqn:E; [|reflexivity].
    rewrite (clean_groups_get groups [] out name E Hwf), Hg. simpl.
    destruct (clean_ifd ifd []) as [c|e] eqn:Ec; [|reflexivity].
    pose proof (clean_ifd_nonempty ifd [] c Ec) as Hne. simpl in Hne.
    now rewrite Hne, Hnone.
  - intros groups name v Hwf Hg Hv.
    rewrite tree_entry_clean_exif_data, <- (clean_groups_ok groups []).
    destruct (clean_groups groups []) as [out|e] eqn:E; simpl.
    + rewrite (clean_groups_get groups [] out name E Hwf), Hg.
      rewrite andb_true_r.
      destruct v; simpl; try reflexivity. now elim (Hv d).
    + now rewrite andb_false_r.
Qed.

(** ** The timestamp resolver *)

Lemma probe_absent object_eq groups name tag rest :
  dict_get groups (KStr name) = None ->
  probe object_eq groups ((name, tag) :: rest) = probe object_eq groups rest.
Proof. intros H. simpl. now rewrite H. Qed.

Lemma probe_mapping object_eq groups name tag rest ifd :
  dict_get groups (KStr name) = Some (PDict ifd) ->
  probe object_eq groups ((name, tag) :: rest) =
  match usable_text (dict_get ifd (KInt tag)) with
  | Some s => Ok (PStr s)
  | None => probe object_eq groups rest
  end.
Proof.
  intros H. simpl. rewrite H. simpl. unfold dict_mem.
  destruct (dict_get ifd (KInt tag)) as [v|]; simpl; [|reflexivity].
  destruct v; simpl; try reflexivity; unfold first_valid.
  - now destruct (nonempty (strip s) && negb (pystr_eqb (strip s) placeholder))%bool.
  - destruct (utf8_decode_ignore_ok b) as [t ->]. simpl.
    now destruct (nonempty (strip t) && negb (pystr_eqb (strip t) placeholder))%bool.
Qed.

(** [tag_id in x] raises on a basic value: text and integers are no
    containers of tag ids, and a tag id is no byte. *)
Lemma probe_basic object_eq groups name tag rest v :
  dict_get groups (KStr name) = Some v -> is_basic v = true ->
  (256 <= tag)%Z ->
  exists e, probe object_eq groups ((name, tag) :: rest) = Raise e.
Proof.
  intros H Hb Ht. simpl. rewrite H.
  destruct v; try discriminate; simpl; eauto.
  destruct (Z.leb_spec 0 tag); destruct (Z.ltb_spec tag 256); simpl; eauto; lia.
Qed.

Lemma sanitized_tree_get groups name v :
  sanitized_tree groups = true -> dict_get groups name = Some v ->
  settled_entry v = true.
Proof.
  intros Hs Hg. apply (sanitized_tree_entry groups name v Hs).
  now apply dict_get_In.
Qed.

(** C4 (as amended).  On None the resolver returns None.  On a sanitized
    tree whose Exif entry, if there is one, is a group mapping, it returns
    the text of the first usable field in the order DateTimeOriginal
    (Exif), DateTimeDigitized (Exif), DateTime (0th): the value decoded
    (binary) or taken as it is (text), stripped, non-empty and different
    from the placeholder 0000:00:00 00:00:00, which counts as absent; it
    returns None when no field is usable. *)
Theorem get_creation_datetime_from_exif_first_usable
  (object_eq : pyval -> Z -> result bool) :
  get_creation_datetime_from_exif object_eq PNone = PNone
  /\ (forall groups,
        sanitized_tree groups = true ->
        group_is_mapping groups "Exif" = true ->
        get_creation_datetime_from_exif object_eq (PDict groups) =
        match first_usable groups with
        | Some s => PStr s
        | None => PNone
        end).
Proof.
  split; [reflexivity|]. intros groups Hs Hm.
  unfold get_creation_datetime_from_exif. cbn [truthy].
  assert (Hne : nonempty groups = true).
  { unfold sanitized_tree in Hs. rewrite !andb_true_iff in Hs. tauto. }
  rewrite Hne. cbn [negb]. unfold datetime_tags, first_usable.
  cbn [tree_tag]. unfold group_is_mapping in Hm.
  assert (H0th : probe object_eq groups [(text "0th", DateTime)] =
                 match dict_get groups (KStr (text "0th")) with
                 | Some (PDict ifd) =>
                     match usable_text (dict_get ifd (KInt DateTime)) with
                     | Some s => Ok (PStr s)
                     | None => Ok PNone
                     end
                 | Some _ => probe object_eq groups [(text "0th", DateTime)]
                 | None => Ok PNone
                 end).
  { destruct (dict_get groups (KStr (text "0th"))) as [v|] eqn:E.
    - destruct v; try reflexivity. now rewrite (probe_mapping _ _ _ _ _ _ E).
    - now rewrite (probe_absent _ _ _ _ _ E). }
  assert (Hlast : match probe object_eq groups [(text "0th", DateTime)] with
                  | Ok v => v
                  | Raise _ => PNone
                  end =
                  match usable_text
                          match dict_get groups (KStr (text "0th")) with
                          | Some (PDict ifd) => dict_get ifd (KInt DateTime)
                          | _ => None
                          end with
                  | Some s => PStr s
                  | None => PNone
                  end).
  { destruct (dict_get groups (KStr (text "0th"))) as [v|] eqn:E.
    - pose proof (sanitized_tree_get _ _ _ Hs E) as Hv.
      destruct v; try discriminate;
        try (destruct (probe_basic object_eq groups (text "0th") DateTime [] _ E Hv)
               as [e ->]; [unfold DateTime; lia | reflexivity]).
      rewrite H0th.
      now destruct (usable_text (dict_get d (KInt DateTime))).
    - now rewrite H0th. }
  destruct (dict_get groups (KStr (text "Exif"))) as [v|] eqn:E.
  - destruct v; try discriminate.
    rewrite (probe_mapping _ _ _ _ _ _ E).
    destruct (usable_text (dict_get d (KInt DateTimeOriginal))); [reflexivity|].
    rewrite (probe_mapping _ _ _ _ _ _ E).
    destruct (usable_text (dict_get d (KInt DateTimeDigitized)));
      [reflexivity|].
    exact Hlast.
  - rewrite !(probe_absent _ _ _ _ _ E). exact Hlast.
Qed.

(** ** Colour-mode normalisation *)

Lemma member_In (x : string) (l : list string) : member x l = true <-> In x l.
Proof.
  unfold member. rewrite existsb_exists. split.
  - intros (y & Hy & E). apply String.eqb_eq in E. now subst.
  - intros H. exists x. split; [assumption | apply String.eqb_refl].
Qed.

Lemma member_not_In (x : string) (l : list string) :
  member x l = false <-> ~ In x l.
Proof.
  rewrite <- member_In. destruct (member x l); split; congruence.
Qed.


(** ** JSON-safe conversion *)

Lemma dict_get_app (d1 d2 : pydict) (k : pykey) :
  dict_get (d1 ++ d2) k =
  match dict_get d1 k with Some v => Some v | None => dict_get d2 k end.
Proof.
  induction d1 as [|[k' v'] r IH]; simpl; [reflexivity|].
  now destruct (key_eqb k' k).
Qed.

Lemma dict_get_fold_set (items : list (pykey * pyval)) :
  forall acc k,
    dict_get (fold_left (fun d kv => dict_set d (fst kv) (snd kv)) items acc) k
    = match dict_get (rev items) k with
      | Some v => Some v
      | None => dict_get acc k
      end.
Proof.
  induction items as [|[k0 v0] r IH]; intros acc k; simpl; [reflexivity|].
  rewrite IH, dict_get_app. destruct (dict_get (rev r) k); [reflexivity|].
  simpl. destruct (key_eqb k0 k) eqn:E.
  - apply key_eqb_eq in E. subst. apply dict_get_set_same.
  - apply key_eqb_neq in E. now apply dict_get_set_other.
Qed.

(** A comprehension looks up the last item given for a key. *)
Lemma dict_get_of_items (items : list (pykey * pyval)) (k : pykey) :
  dict_get (dict_of_items items) k = dict_get (rev items) k.
Proof.
  unfold dict_of_items. rewrite dict_get_fold_set.
  now destruct (dict_get (rev items) k).
Qed.

Lemma fold_set_distinct (items : list (pykey * pyval)) :
  forall acc,
    distinct (keys acc ++ keys items) = true ->
    fold_left (fun d kv => dict_set d (fst kv) (snd kv)) items acc
    = acc ++ items.
Proof.
  induction items as [|[k v] r IH]; intros acc Hd; simpl.
  - now rewrite app_nil_r.
  - apply distinct_NoDup in Hd.
    assert (Hfresh : ~ In k (keys acc)).
    { intros Hin. apply NoDup_remove_2 in Hd. apply Hd.
      apply in_or_app. now left. }
    rewrite (dict_set_fresh _ _ _ Hfresh), IH.
    + now rewrite <- app_assoc.
    + unfold keys in *. rewrite map_app, <- app_assoc. simpl.
      now apply distinct_NoDup.
Qed.

Lemma fold_set_Forall (P : pykey * pyval -> Prop) (items : list (pykey * pyval)) :
  forall acc,
    Forall P acc -> Forall P items ->
    Forall P (fold_left (fun d kv => dict_set d (fst kv) (snd kv)) items acc).
Proof.
  induction items as [|[k v] r IH]; intros acc Ha Hi; simpl; [assumption|].
  inversion Hi; subst. apply IH; [|assumption].
  now apply dict_set_Forall.
Qed.

(** C10.  Whatever the input, the converted value holds no binary value
    at any depth: it is null, a boolean, a number or a text, or a
    sequence or a text-keyed mapping of such values, hence
    JSON-serializable. *)
Theorem convert_bytes_for_json_safe (obj : pyval) :
  json_safe (convert_bytes_for_json obj) = true.
Proof.
  induction obj as [ | b | z | f | s | b | l IH | l IH | d IH | s ]
    using pyval_nested_ind; simpl; try reflexivity.
  - now destruct (utf8_decode Strict b).
  - apply forallb_forall. intros x Hx. apply in_map_iff in Hx.
    destruct Hx as (y & <- & Hy). rewrite Forall_forall in IH. now apply IH.
  - apply forallb_forall. intros x Hx. apply in_map_iff in Hx.
    destruct Hx as (y & <- & Hy). rewrite Forall_forall in IH. now apply IH.
  - apply forallb_forall. apply Forall_forall.
    apply fold_set_Forall; [constructor|].
    apply Forall_forall. intros x Hx. apply in_map_iff in Hx.
    destruct Hx as (y & <- & Hy). rewrite Forall_forall in IH. simpl.
    now apply IH.
Qed.

Lemma hex_length (b : pybytes) : List.length (hex b) = (2 * List.length b)%nat.
Proof.
  unfold hex. induction b as [|x r IH]; simpl; [reflexivity|].
  rewrite IH. lia.
Qed.

Lemma utf8_decode_raises (m : errors_mode) (b : pybytes) (e : exn) :
  utf8_decode m b = Raise e -> m = Strict /\ e = UnicodeDecodeError.
Proof.
  destruct m.
  - intros H. split; [reflexivity|]. revert e H.
    assert (Hall : forall n b, (List.length b <= n)%nat ->
              forall e, utf8_decode Strict b = Raise e -> e = UnicodeDecodeError).
    { clear b. induction n as [|n IH]; intros b Hn e.
      - destruct b; [discriminate | simpl in Hn; lia].
      - destruct b as [|b1 s1]; [discriminate|]. simpl in Hn.
        cbn -[N.ltb is_continuation second_ok3 second_ok4 cp2 cp3 cp4 Byte.to_N].
        decode_cases; simpl on_error; try (now intros [= <-]);
          unfold emit;
          match goal with
          | |- bind (utf8_decode Strict ?r) _ = _ -> _ =>
              destruct (utf8_decode Strict r) as [t|e'] eqn:E; simpl;
              [discriminate | intros [= <-]; apply (IH r); [simpl in *; lia | exact E]]
          end. }
    apply (Hall (List.length b) b). apply Nat.le_refl.
  - destruct (utf8_decode_ignore_ok b) as [t ->]. discriminate.
Qed.

(** C5.  What [convert_bytes_for_json] returns: for binary that is valid
    UTF-8 (the encoding of a text) the text, so the bytes of hello give
    the text hello; for binary that is not, the placeholder made of the
    byte length and the first 50 characters at most of the hex rendering
    (followed by an ellipsis when there are more); integers, floats, text,
    booleans and None as they are; a sequence as the list of its converted
    items; a mapping as the mapping from the text of each key to the
    converted value (the last item wins when two keys have the same
    text); any other object as its text. *)
Theorem convert_bytes_for_json_cases :
  (forall s b, unicode s -> utf8_encode s = Ok b ->
               convert_bytes_for_json (PBytes b) = PStr s)
  /\ convert_bytes_for_json (PBytes (bytes_of "hello")) = PStr (text "hello")
  /\ (forall b, (forall s, unicode s -> utf8_encode s <> Ok b) ->
        exists preview,
          convert_bytes_for_json (PBytes b) =
          PStr (text "<bytes:" ++ str_of_int (Z.of_nat (List.length b))
                ++ text ":" ++ preview
                ++ (if Nat.ltb 50 (2 * List.length b) then text "..." else [])
                ++ text ">")
          /\ preview = firstn 50 (hex b)
          /\ (List.length preview <= 50)%nat)
  /\ (forall z, convert_bytes_for_json (PInt z) = PInt z)
  /\ (forall f, convert_bytes_for_json (PFloat f) = PFloat f)
  /\ (forall s, convert_bytes_for_json (PStr s) = PStr s)
  /\ (forall b, convert_bytes_for_json (PBool b) = PBool b)
  /\ convert_bytes_for_json PNone = PNone
  /\ (forall l, convert_bytes_for_json (PList l)
                = PList (List.map convert_bytes_for_json l))
  /\ (forall l, convert_bytes_for_json (PTuple l)
                = PList (List.map convert_bytes_for_json l))
  /\ (forall d,
        let items :=
          List.map (fun kv => (KStr (str_of_key (fst kv)),
                               convert_bytes_for_json (snd kv))) d in
        exists d',
          convert_bytes_for_json (PDict d) = PDict d'
          /\ (forall k, dict_get d' k = dict_get (rev items) k)
          /\ (distinct (keys items) = true -> d' = items))
  /\ (forall s, convert_bytes_for_json (PObject s) = PStr s).
Proof.
  repeat match goal with |- _ /\ _ => split end; try reflexivity.
  - intros s b Hs Hb. cbn [convert_bytes_for_json].
    now rewrite (utf8_decode_encode Strict s Hs b Hb).
  - intros b Hb. exists (firstn 50 (hex b)). cbn [convert_bytes_for_json].
    destruct (utf8_decode Strict b) as [s|e] eqn:E.
    + apply utf8_encode_decode in E. destruct E as [E Hs].
      now elim (Hb s Hs).
    + unfold bytes_placeholder. rewrite hex_length.
      repeat split. apply firstn_le_length.
  - intros d items. exists (dict_of_items items). repeat split.
    + intros k. apply dict_get_of_items.
    + intros Hd. unfold dict_of_items. now rewrite fold_set_distinct.
Qed.

(** * The claims on the sample trees *)

Local Open Scope Z_scope.

(** The photograph sanitizes to the expected tree. *)
Example clean_photo : clean_exif_data (PDict photo) = PDict photo_cleaned.
Proof. vm_compute. reflexivity. Qed.

(** C1 on the photograph: DateTimeOriginal, which the Exif group of the
    result holds, is no denylisted tag. *)
Lemma drops_problematic_tags_witness :
  clean_exif_data (PDict photo) = PDict photo_cleaned
  /\ ~ In 36867 problematic_tags.
Proof.
  split; [vm_compute; reflexivity|].
  apply (clean_exif_data_drops_problematic_tags
           (PDict photo) photo_cleaned (KStr (text "Exif")) cleaned_exif
           36867 (PBytes (bytes_of "2020:01:01 10:00:00"))).
  - vm_compute. reflexivity.
  - right. left. reflexivity.
  - left. reflexivity.
Defined.

(** C2 on the photograph: the ResolutionUnit, 2, is in the result. *)
Lemma integer_tag_witness :
  exists v,
    tree_tag (clean_exif_data (PDict photo)) (KStr (text "0th")) (KInt 296)
    = Some v.
Proof.
  destruct (clean_exif_data_integer_tag
              photo (KStr (text "0th")) photo_0th (KInt 296) (PInt 2) 2
              eq_refl eq_refl eq_refl eq_refl eq_refl eq_refl)
    as [[_ Hkept] _].
  apply Hkept. split; [lia | reflexivity].
Defined.

(** C2 fails as stated: in the broken group the ResolutionUnit is an
    integer in range outside the denylist, and it is not in the result,
    which is None because the Make text cannot be encoded. *)
Lemma integer_tag_counterexample :
  dict_wf broken /\ dict_wf broken_0th
  /\ dict_get broken (KStr (text "0th")) = Some (PDict broken_0th)
  /\ dict_get broken_0th (KInt 296) = Some (PInt 2)
  /\ in_problematic_tags (KInt 296) = false
  /\ (-2147483648 <= 2 <= 2147483647)
  /\ dict_get broken_0th (KInt 271) = Some (PStr [0xD800%N])
  /\ utf8_encode [0xD800%N] = Raise UnicodeEncodeError
  /\ clean_exif_data (PDict broken) = PNone
  /\ tree_tag (clean_exif_data (PDict broken)) (KStr (text "0th")) (KInt 296)
     = None.
Proof. repeat split; try reflexivity; lia. Qed.

(** C3 on the photograph: the exposure time (1, 0) is in the result, the
    focal length (2147483648, 1) is not. *)
Lemma rational_tag_witness :
  (exists v,
      tree_tag (clean_exif_data (PDict photo)) (KStr (text "Exif")) (KInt 33434)
      = Some v)
  /\ ~ (exists v,
          tree_tag (clean_exif_data (PDict photo)) (KStr (text "Exif"))
            (KInt 37386) = Some v).
Proof.
  split.
  - destruct (clean_exif_data_rational_tag
                photo (KStr (text "Exif")) photo_exif (KInt 33434)
                [PInt 1; PInt 0] eq_refl eq_refl eq_refl eq_refl eq_refl)
      as [[_ Hkept] _].
    apply Hkept. split; [|reflexivity].
    exists (PInt 1), (PInt 0), 1, 0. repeat split; lia.
  - destruct (clean_exif_data_rational_tag
                photo (KStr (text "Exif")) photo_exif (KInt 37386)
                [PInt 2147483648; PInt 1]
                eq_refl eq_refl eq_refl eq_refl eq_refl)
      as [[Hdropped _] _].
    intros H. apply Hdropped in H.
    destruct H as [(a & b & x & y & Hl & Hx & _ & Rx & _) _].
    injection Hl as <- <-. injection Hx as <-. lia.
Defined.

(** C3 fails as stated: the rational (1, 0) of the broken group is not in
    the result. *)
Lemma rational_tag_counterexample :
  dict_wf broken /\ dict_wf broken_0th
  /\ dict_get broken (KStr (text "0th")) = Some (PDict broken_0th)
  /\ dict_get broken_0th (KInt 282) = Some (PTuple [PInt 1; PInt 0])
  /\ in_problematic_tags (KInt 282) = false
  /\ rational_in_range [PInt 1; PInt 0] = true
  /\ tree_tag (clean_exif_data (PDict broken)) (KStr (text "0th")) (KInt 282)
     = None.
Proof. repeat split. Qed.

(** C9 on the photograph: the Model is kept, byte for byte. *)
Lemma binary_tag_witness :
  tree_tag (clean_exif_data (PDict photo)) (KStr (text "0th")) (KInt 272)
  = Some (PBytes (bytes_of "X1")).
Proof.
  destruct (clean_exif_data_binary_tag
              photo (KStr (text "0th")) photo_0th (KInt 272) (bytes_of "X1")
              eq_refl eq_refl eq_refl eq_refl eq_refl)
    as (_ & Hkept & [s Hs]).
  apply (Hkept s Hs). reflexivity.
Defined.

(** C9 fails as stated: the Model of the broken group decodes, and it is
    not in the result. *)
Lemma binary_tag_counterexample :
  dict_wf broken /\ dict_wf broken_0th
  /\ dict_get broken (KStr (text "0th")) = Some (PDict broken_0th)
  /\ dict_get broken_0th (KInt 272) = Some (PBytes (bytes_of "X1"))
  /\ in_problematic_tags (KInt 272) = false
  /\ utf8_decode Ignore (bytes_of "X1") = Ok (text "X1")
  /\ tree_tag (clean_exif_data (PDict broken)) (KStr (text "0th")) (KInt 272)
     = None.
Proof. repeat split. Qed.

(** C6 on the photograph: its sanitized tree sanitizes to itself. *)
Lemma idempotent_witness :
  clean_exif_data (PDict photo_cleaned) = PDict photo_cleaned.
Proof.
  apply (proj2 clean_exif_data_idempotent photo_cleaned). reflexivity.
Defined.

(** C6 fails as stated: the only field of this tree is a valid text
    outside the denylist, and the tree does not sanitize to itself, the
    text being stored as bytes. *)
Lemma equal_tree_counterexample :
  text_only = [(KStr (text "0th"), PDict text_only_0th)]
  /\ forallb tag_survives text_only_0th = true
  /\ tree_tag (PDict text_only) (KStr (text "0th")) (KInt 271)
     = Some (PStr (text "Acme"))
  /\ clean_exif_data (PDict text_only) = PDict text_only_cleaned
  /\ clean_exif_data (PDict text_only) <> PDict text_only.
Proof. repeat split. discriminate. Qed.

(** C7 on the photograph: the empty GPS group is left out, and so is the
    thumbnail entry, which is None. *)
Lemma result_witness :
  tree_entry (clean_exif_data (PDict photo)) (KStr (text "GPS")) = None
  /\ tree_entry (clean_exif_data (PDict photo)) (KStr (text "thumbnail")) = None.
Proof.
  destruct clean_exif_data_result as (_ & _ & Hgroup & Hentry). split.
  - apply (Hgroup photo (KStr (text "GPS")) []); reflexivity.
  - rewrite (Hentry photo (KStr (text "thumbnail")) PNone);
      [reflexivity | reflexivity | reflexivity | discriminate].
Defined.

(** C7 fails as stated: the broken tree is not empty and three of its
    tags survive filtering, and the result is None. *)
Lemma result_counterexample :
  broken <> []
  /\ existsb entry_survives broken = true
  /\ List.length (filter tag_survives broken_0th) = 4%nat
  /\ clean_exif_data (PDict broken) = PNone.
Proof. repeat split. discriminate. Qed.

(** C4 on the photograph: with both DateTimeOriginal and DateTime the
    resolver returns the former; with the placeholder alone, None. *)
Lemma first_usable_witness :
  get_creation_datetime_from_exif never_equal (PDict photo_cleaned)
  = PStr (text "2020:01:01 10:00:00")
  /\ get_creation_datetime_from_exif never_equal (PDict placeholder_only)
     = PNone.
Proof.
  destruct (get_creation_datetime_from_exif_first_usable never_equal)
    as [_ Hfirst].
  split.
  - rewrite (Hfirst photo_cleaned); reflexivity.
  - rewrite (Hfirst placeholder_only); reflexivity.
Defined.

(** C4 fails as stated: this tree is a sanitized tree (the sanitizer
    returns it as it is), its DateTime is usable, and the resolver
    returns None, the membership test on the integer under Exif raising
    inside the try block. *)
Lemma first_usable_counterexample :
  clean_exif_data (PDict stray_exif) = PDict stray_exif
  /\ first_usable stray_exif = Some (text "2021:05:05 05:05:05")
  /\ contains_tag never_equal (PInt 7) DateTimeOriginal = Raise TypeError
  /\ get_creation_datetime_from_exif never_equal (PDict stray_exif) = PNone.
Proof. repeat split. Qed.



(** C5 on the bytes of hello, as the encoding of the text hello. *)
Lemma convert_bytes_for_json_witness :
  convert_bytes_for_json (PBytes (bytes_of "hello")) = PStr (text "hello").
Proof.
  apply (proj1 convert_bytes_for_json_cases (text "hello") (bytes_of "hello")).
  - unfold unicode. repeat constructor.
  - reflexivity.
Defined.

(** C5 on binary values that are not UTF-8, and on a mapping. *)
Example convert_invalid_bytes :
  convert_bytes_for_json (PBytes [xff; xfe]) = PStr (text "<bytes:2:fffe>")
  /\ convert_bytes_for_json (PBytes (repeat xff 26))
     = PStr (text "<bytes:26:" ++ repeat 102%N 50 ++ text "...>").
Proof. split; vm_compute; reflexivity. Qed.

Example convert_mapping :
  convert_bytes_for_json
    (PDict [(KInt 1, PBytes (bytes_of "hello"));
            (KStr (text "dpi"), PTuple [PInt 72; PInt 72]);
            (KStr (text "1"), PObject (text "IFDRational(1, 3)"))])
  = PDict [(KStr (text "1"), PStr (text "IFDRational(1, 3)"));
           (KStr (text "dpi"), PList [PInt 72; PInt 72])].
Proof. vm_compute. reflexivity. Qed.

(** * Further properties of the code *)

Import Extractor Backup Display Shape ImageSamples.

(** ** The sanitizer: every tag of every group *)

(** The fate of any tag of any group of a well-formed tree the sanitizer
    does not give up on. *)
Lemma tree_tag_clean_exif_data_any
  (groups : pydict) (ifd_name tag_id : pykey) :
  dict_wf groups ->
  (forall name ifd, In (name, PDict ifd) groups -> dict_wf ifd) ->
  tree_tag (clean_exif_data (PDict groups)) ifd_name tag_id =
  if tree_encodable groups then
    match tree_tag (PDict groups) ifd_name tag_id with
    | Some v =>
        if in_problematic_tags tag_id then None
        else match clean_tag_value v with
             | Ok (Some v') => Some v'
             | _ => None
             end
    | None => None
    end
  else None.
Proof.
  intros Hwf Hwfs.
  rewrite clean_exif_data_dict, <- (clean_groups_ok groups []).
  destruct (clean_groups groups []) as [out|e] eqn:Eg; simpl; [|reflexivity].
  assert (Hout : tree_tag (if nonempty out then PDict out else PNone)
                   ifd_name tag_id
                 = tree_tag (PDict out) ifd_name tag_id)
    by (destruct out; reflexivity).
  rewrite Hout. simpl.
  rewrite (clean_groups_get groups [] out ifd_name Eg Hwf). simpl.
  destruct (dict_get groups ifd_name) as [v|] eqn:Ev; [|reflexivity].
  destruct v; simpl; try reflexivity.
  assert (Henc : ifd_encodable d = true).
  { apply (tree_encodable_group groups ifd_name).
    - rewrite <- (clean_groups_ok groups []), Eg. reflexivity.
    - now apply dict_get_In. }
  rewrite <- (clean_ifd_ok d []) in Henc.
  destruct (clean_ifd d []) as [c|e] eqn:Ec; [clear Henc|discriminate].
  assert (Hwfd : dict_wf d) by (apply (Hwfs ifd_name); now apply dict_get_In).
  pose proof (clean_ifd_get d [] c tag_id Ec Hwfd) as Hc. simpl in Hc.
  assert (Hgoal : dict_get c tag_id =
                  match dict_get d tag_id with
                  | Some v =>
                      if in_problematic_tags tag_id then None
                      else match clean_tag_value v with
                           | Ok (Some v') => Some v'
                           | _ => None
                           end
                  | None => None
                  end).
  { rewrite Hc. destruct (dict_get d tag_id); [|reflexivity].
    destruct (in_problematic_tags tag_id); [reflexivity|].
    now destruct (clean_tag_value p) as [[?|]|?]. }
  rewrite <- Hgoal. destruct c; reflexivity.
Qed.

(** X1.  In a well-formed tree the sanitizer does not give up on, a text
    tag outside the denylist is stored as the UTF-8 encoding of the text,
    and the text can be read back from what is stored, under either
    error mode of the decoder. *)
Theorem clean_exif_data_text_tag
  (groups : pydict) (ifd_name : pykey) (ifd : pydict)
  (tag_id : pykey) (s : pystr) :
  dict_wf groups -> dict_wf ifd ->
  dict_get groups ifd_name = Some (PDict ifd) ->
  dict_get ifd tag_id = Some (PStr s) ->
  in_problematic_tags tag_id = false ->
  tree_encodable groups = true ->
  unicode s ->
  exists b,
    tree_tag (clean_exif_data (PDict groups)) ifd_name tag_id = Some (PBytes b)
    /\ utf8_encode s = Ok b
    /\ utf8_decode Strict b = Ok s
    /\ utf8_decode Ignore b = Ok s.
Proof.
  intros Hwf Hwfi Hg Ht Hk Henc Hs.
  rewrite (tree_tag_clean_exif_data _ _ _ _ _ Hwf Hwfi Hg Ht Hk), Henc.
  assert (Hok : is_ok (utf8_encode s) = true).
  { rewrite utf8_encode_ok.
    unfold tree_encodable in Henc. rewrite forallb_forall in Henc.
    pose proof (Henc _ (dict_get_In _ _ _ Hg)) as Hi. simpl in Hi.
    unfold ifd_encodable in Hi. rewrite forallb_forall in Hi.
    pose proof (Hi _ (dict_get_In _ _ _ Ht)) as Hv. simpl in Hv.
    now rewrite Hk in Hv. }
  simpl. destruct (utf8_encode s) as [b|e] eqn:E; [|discriminate].
  exists b. simpl. repeat split; now apply utf8_decode_encode.
Qed.

(** X2.  In a well-formed tree, the result holds nothing under a tag that
    the input group does not hold, nothing under a name that is no group
    mapping of the input, nothing under a denylisted tag, and nothing for
    a value that is neither binary, text, an integer in range nor a pair
    of integers in range (None, a float, a list, a mapping, any other
    object, a tuple of another shape). *)
Theorem clean_exif_data_drops
  (groups : pydict) (ifd_name tag_id : pykey) :
  dict_wf groups ->
  (forall name ifd, In (name, PDict ifd) groups -> dict_wf ifd) ->
  match tree_tag (PDict groups) ifd_name tag_id with
  | Some v =>
      in_problematic_tags tag_id = true \/ value_survives v = false ->
      tree_tag (clean_exif_data (PDict groups)) ifd_name tag_id = None
  | None => tree_tag (clean_exif_data (PDict groups)) ifd_name tag_id = None
  end.
Proof.
  intros Hwf Hwfs.
  rewrite (tree_tag_clean_exif_data_any groups ifd_name tag_id Hwf Hwfs).
  destruct (tree_tag (PDict groups) ifd_name tag_id) as [v|];
    [|now destruct (tree_encodable groups)].
  intros [H|H]; destruct (tree_encodable groups); try reflexivity.
  - now rewrite H.
  - destruct (in_problematic_tags tag_id); [reflexivity|].
    rewrite clean_tag_value_spec.
    destruct v; simpl in H; try discriminate; simpl; try rewrite H;
      reflexivity.
Qed.

(** ** The sanitizer: shape and provenance of the result *)

Lemma settled_value_cases (x : pyval) :
  settled_value x = true ->
  (exists b, x = PBytes b)
  \/ (exists z, as_int x = Some z /\ (-2147483648 <= z <= 2147483647)%Z)
  \/ (exists a b p q,
         x = PTuple [a; b] /\ as_int a = Some p /\ as_int b = Some q
         /\ (-2147483648 <= p <= 2147483647)%Z
         /\ (-2147483648 <= q <= 2147483647)%Z).
Proof.
  destruct x; simpl; try discriminate; intros H.
  - right. left. exists (Z.b2z b). split; [reflexivity|]. destruct b; simpl; lia.
  - right. left. exists z. split; [reflexivity | now apply int32_spec].
  - left. now exists b.
  - right. right. apply rational_in_range_spec in H.
    destruct H as (a & b & p & q & -> & H). now exists a, b, p, q.
Qed.

(** X3.  Whatever the input, a result that is not None is a tree of one
    shape: it is not empty and holds no name twice; each of its groups is
    not empty, holds no tag twice, and holds only binary values, integers
    in the signed 32-bit range and pairs of such integers (no text, no
    float, no None); any other entry is binary, text or an integer. *)
Theorem clean_exif_data_shape_invariant (exif_dict : pyval) (cleaned : pydict) :
  clean_exif_data exif_dict = PDict cleaned ->
  cleaned <> []
  /\ NoDup (keys cleaned)
  /\ forall name v,
       In (name, v) cleaned ->
       match v with
       | PDict ifd =>
           ifd <> [] /\ NoDup (keys ifd)
           /\ forall tag x,
                In (tag, x) ifd ->
                (exists b, x = PBytes b)
                \/ (exists z, as_int x = Some z
                              /\ (-2147483648 <= z <= 2147483647)%Z)
                \/ (exists a b p q,
                       x = PTuple [a; b]
                       /\ as_int a = Some p /\ as_int b = Some q
                       /\ (-2147483648 <= p <= 2147483647)%Z
                       /\ (-2147483648 <= q <= 2147483647)%Z)
       | PBytes _ | PStr _ | PInt _ | PBool _ => True
       | _ => False
       end.
Proof.
  intros H. apply clean_exif_data_sanitized in H.
  pose proof H as Hs. unfold sanitized_tree in Hs.
  rewrite !andb_true_iff in Hs. destruct Hs as [[Hne Hd] _].
  split; [now destruct cleaned|]. split; [now apply distinct_NoDup|].
  intros name v Hin. pose proof (sanitized_tree_entry _ _ _ H Hin) as Hv.
  destruct v; simpl in Hv; try discriminate; try exact I.
  unfold settled_ifd in Hv. rewrite !andb_true_iff in Hv.
  destruct Hv as [[Hn Hdi] Hall].
  split; [now destruct d|]. split; [now apply distinct_NoDup|].
  intros tag x Hx. rewrite forallb_forall in Hall.
  specialize (Hall _ Hx). unfold settled_tag in Hall.
  rewrite andb_true_iff in Hall. now apply settled_value_cases.
Qed.

Lemma In_dict_set (d : pydict) (k k' : pykey) (v v' : pyval) :
  In (k', v') (dict_set d k v) -> (k' = k /\ v' = v) \/ In (k', v') d.
Proof.
  induction d as [|[k0 v0] r IH]; simpl.
  - intros [[= <- <-]|[]]. now left.
  - destruct (key_eqb k0 k) eqn:E; simpl.
    + apply key_eqb_eq in E. subst k0. intros [[= <- <-]|H]; auto.
    + intros [H|H]; [auto|]. destruct (IH H); auto.
Qed.

Lemma clean_ifd_provenance (items : pydict) :
  forall acc out,
    clean_ifd items acc = Ok out ->
    forall k x, In (k, x) out ->
      In (k, x) acc
      \/ exists x0, In (k, x0) items /\ clean_tag_value x0 = Ok (Some x).
Proof.
  induction items as [|[k0 v0] r IH]; intros acc out; simpl.
  - intros [= <-]. auto.
  - destruct (in_problematic_tags k0).
    { intros H k x Hin. destruct (IH _ _ H k x Hin) as [|(x0 & ? & ?)]; eauto. }
    destruct (clean_tag_value v0) as [[v'|]|e] eqn:Ev; simpl; [| |discriminate].
    + intros H k x Hin. destruct (IH _ _ H k x Hin) as [Ha|(x0 & ? & ?)]; eauto.
      apply In_dict_set in Ha. destruct Ha as [[-> ->]|Ha]; eauto.
    + intros H k x Hin. destruct (IH _ _ H k x Hin) as [|(x0 & ? & ?)]; eauto.
Qed.

Lemma clean_groups_provenance (items : pydict) :
  forall acc out,
    clean_groups items acc = Ok out ->
    forall name v, In (name, v) out ->
      In (name, v) acc
      \/ (exists ifd c, v = PDict c /\ In (name, PDict ifd) items
                        /\ clean_ifd ifd [] = Ok c)
      \/ ((forall c, v <> PDict c) /\ In (name, v) items).
Proof.
  induction items as [|[k0 v0] r IH]; intros acc out; simpl.
  - intros [= <-]. auto.
  - assert (Hskip : clean_groups r acc = Ok out ->
              forall name v, In (name, v) out ->
                In (name, v) acc
                \/ (exists ifd c, v = PDict c
                       /\ ((k0, v0) = (name, PDict ifd) \/ In (name, PDict ifd) r)
                       /\ clean_ifd ifd [] = Ok c)
                \/ ((forall c, v <> PDict c)
                    /\ ((k0, v0) = (name, v) \/ In (name, v) r))).
    { intros H name v Hin.
      destruct (IH _ _ H name v Hin) as [|[(ifd & c & ? & ? & ?)|[? ?]]]; auto.
      right. left. exists ifd, c. auto. }
    assert (Hbasic : is_basic v0 = true ->
              clean_groups r (dict_set acc k0 v0) = Ok out ->
              forall name v, In (name, v) out ->
                In (name, v) acc
                \/ (exists ifd c, v = PDict c
                       /\ ((k0, v0) = (name, PDict ifd) \/ In (name, PDict ifd) r)
                       /\ clean_ifd ifd [] = Ok c)
                \/ ((forall c, v <> PDict c)
                    /\ ((k0, v0) = (name, v) \/ In (name, v) r))).
    { intros Hb H name v Hin.
      destruct (IH _ _ H name v Hin) as [Ha|[(ifd & c & ? & ? & ?)|[? ?]]]; auto.
      - apply In_dict_set in Ha. destruct Ha as [[-> ->]|Ha]; auto.
        right. right. split; [|now left].
        intros c ->. discriminate.
      - right. left. exists ifd, c. auto. }
    destruct v0; simpl; try exact Hskip; try (apply Hbasic; reflexivity).
    destruct (clean_ifd d []) as [c|e] eqn:Ec; simpl; [|discriminate].
    destruct (nonempty c); [|exact Hskip].
    intros H name v Hin.
    destruct (IH _ _ H name v Hin) as [Ha|[(ifd & c' & ? & ? & ?)|[? ?]]]; auto.
    + apply In_dict_set in Ha. destruct Ha as [[-> ->]|Ha]; auto.
      right. left. exists d, c. auto.
    + right. left. exists ifd, c'. auto.
Qed.

(** X4.  The sanitizer invents nothing.  Every name of the result is a
    name of the input; a group of the result comes from a group of the
    input under the same name, and each of its tags is a tag of that
    group, holding the same value or, for a text, its UTF-8 bytes; any
    other entry of the result is the entry of the input. *)
Theorem clean_exif_data_provenance (exif_dict : pyval) (cleaned : pydict) :
  clean_exif_data exif_dict = PDict cleaned ->
  exists groups,
    exif_dict = PDict groups
    /\ forall name v,
         In (name, v) cleaned ->
         match v with
         | PDict c =>
             exists ifd,
               In (name, PDict ifd) groups
               /\ forall tag x,
                    In (tag, x) c ->
                    exists x0,
                      In (tag, x0) ifd
                      /\ (x = x0
                          \/ exists s b, x0 = PStr s /\ utf8_encode s = Ok b
                                         /\ x = PBytes b)
         | _ => In (name, v) groups
         end.
Proof.
  intros H. destruct (clean_exif_data_inv _ _ H) as (groups & -> & Hg).
  exists groups. split; [reflexivity|]. intros name v Hin.
  destruct (clean_groups_provenance groups [] cleaned Hg name v Hin)
    as [[]|[(ifd & c & -> & Hi & Hc)|[Hv Hi]]].
  - exists ifd. split; [assumption|]. intros tag x Hx.
    destruct (clean_ifd_provenance ifd [] c Hc tag x Hx) as [[]|(x0 & Hx0 & Hv)].
    exists x0. split; [assumption|].
    rewrite clean_tag_value_spec in Hv.
    destruct x0; simpl in Hv;
      try (destruct (utf8_encode s) as [b|e] eqn:E; simpl in Hv;
           [injection Hv as <-; right; now exists s, b | discriminate]);
      match type of Hv with
      | Ok (if ?c then _ else _) = _ => destruct c
      | _ => idtac
      end; try discriminate; injection Hv as <-; now left.
  - destruct v; try assumption. now elim (Hv d).
Qed.

(** ** The resolver: what it returns *)

Lemma lstrip_head (s : pystr) :
  match lstrip s with [] => True | c :: _ => isspace c = false end.
Proof.
  induction s as [|c t IH]; simpl; [exact I|].
  destruct (isspace c) eqn:E; [exact IH | exact E].
Qed.

Lemma lstrip_fixed (s : pystr) :
  match s with [] => True | c :: _ => isspace c = false end -> lstrip s = s.
Proof. destruct s as [|c t]; simpl; [reflexivity | now intros ->]. Qed.

Lemma lstrip_suffix (s : pystr) : exists p, s = p ++ lstrip s.
Proof.
  induction s as [|c t [p Hp]]; simpl; [now exists []|].
  destruct (isspace c); [|now exists []].
  exists (c :: p). simpl. now f_equal.
Qed.

Lemma rstrip_prefix (s : pystr) : exists q, s = rstrip s ++ q.
Proof.
  unfold rstrip. destruct (lstrip_suffix (rev s)) as [p Hp].
  exists (rev p). rewrite <- rev_app_distr, <- Hp. now rewrite rev_involutive.
Qed.

Lemma strip_idempotent (s : pystr) : strip (strip s) = strip s.
Proof.
  unfold strip. set (y := lstrip s).
  assert (Hl : lstrip (rstrip y) = rstrip y).
  { apply lstrip_fixed. destruct (rstrip_prefix y) as [q Hq].
    pose proof (lstrip_head s) as Hh. fold y in Hh.
    destruct (rstrip y) as [|c z]; [exact I|]. rewrite Hq in Hh. exact Hh. }
  rewrite Hl. unfold rstrip. rewrite rev_involutive. f_equal.
  apply lstrip_fixed. apply lstrip_head.
Qed.

Lemma pystr_eqb_eq (s t : pystr) : pystr_eqb s t = true <-> s = t.
Proof.
  unfold pystr_eqb. destruct (list_eq_dec N.eq_dec s t); split; congruence.
Qed.

Lemma first_valid_result (x : pystr) (next : result pyval) (v : pyval) :
  first_valid (strip x) next = Ok v ->
  (v = PStr (strip x) /\ strip x <> [] /\ strip x <> placeholder)
  \/ next = Ok v.
Proof.
  unfold first_valid.
  destruct (nonempty (strip x)) eqn:En; simpl; [|now right].
  destruct (pystr_eqb (strip x) placeholder) eqn:Ep; simpl; [now right|].
  intros [= <-]. left. repeat split.
  - now destruct (strip x).
  - intros H. apply pystr_eqb_eq in H. congruence.
Qed.

Lemma probe_result object_eq (exif_dict : pydict) (tags : list (pystr * Z)) :
  forall v, probe object_eq exif_dict tags = Ok v ->
    v = PNone
    \/ exists x, v = PStr (strip x) /\ strip x <> [] /\ strip x <> placeholder.
Proof.
  induction tags as [|[name tag] rest IH]; simpl; intros v.
  - intros [= <-]. now left.
  - destruct (dict_get exif_dict (KStr name)) as [group|]; [|apply IH].
    destruct (contains_tag object_eq group tag) as [[|]|e]; simpl;
      [|apply IH|discriminate].
    destruct (get_tag group tag) as [value|e]; simpl; [|discriminate].
    destruct value; try apply IH.
    + intros H. apply first_valid_result in H.
      destruct H as [H|H]; [right; now exists s | now apply IH].
    + destruct (utf8_decode Ignore b) as [t|e]; simpl; [|discriminate].
      intros H. apply first_valid_result in H.
      destruct H as [H|H]; [right; now exists t | now apply IH].
Qed.

(** X5.  Whatever it is given, the resolver returns None or a text that
    is not empty, is not the placeholder 0000:00:00 00:00:00, and has no
    white space left to strip at either end. *)
Theorem get_creation_datetime_from_exif_result
  (object_eq : pyval -> Z -> result bool) (exif_dict : pyval) :
  get_creation_datetime_from_exif object_eq exif_dict = PNone
  \/ exists s,
       get_creation_datetime_from_exif object_eq exif_dict = PStr s
       /\ s <> [] /\ s <> placeholder /\ strip s = s.
Proof.
  unfold get_creation_datetime_from_exif.
  destruct (negb (truthy exif_dict)); [now left|].
  destruct exif_dict; try (now left).
  destruct (probe object_eq d datetime_tags) as [v|e] eqn:E; [|now left].
  destruct (probe_result object_eq d datetime_tags v E) as [->|(x & -> & Hn & Hp)];
    [now left|].
  right. exists (strip x). repeat split; try assumption.
  apply strip_idempotent.
Qed.

(** ** The resolver after the sanitizer *)

(** The three probes on a tree whose Exif entry is a group or missing,
    and whose 0th entry is a group, a basic value or missing. *)
Lemma probe_datetime_tags object_eq (groups : pydict) :
  match dict_get groups (KStr (text "Exif")) with
  | Some (PDict _) | None => True
  | Some _ => False
  end ->
  match dict_get groups (KStr (text "0th")) with
  | Some (PDict _) | None => True
  | Some v => is_basic v = true
  end ->
  match probe object_eq groups datetime_tags with
  | Ok v => v
  | Raise _ => PNone
  end =
  match first_usable groups with
  | Some s => PStr s
  | None => PNone
  end.
Proof.
  intros Hexif H0th. unfold datetime_tags, first_usable. cbn [tree_tag].
  assert (Hlast : match probe object_eq groups [(text "0th", DateTime)] with
                  | Ok v => v
                  | Raise _ => PNone
                  end =
                  match usable_text
                          match dict_get groups (KStr (text "0th")) with
                          | Some (PDict ifd) => dict_get ifd (KInt DateTime)
                          | _ => None
                          end with
                  | Some s => PStr s
                  | None => PNone
                  end).
  { destruct (dict_get groups (KStr (text "0th"))) as [v|] eqn:E.
    - destruct v;
        try (destruct (probe_basic object_eq groups (text "0th") DateTime [] _ E H0th)
               as [e ->]; [unfold DateTime; lia | reflexivity]).
      rewrite (probe_mapping _ _ _ _ _ _ E). simpl.
      now destruct (usable_text (dict_get d (KInt DateTime))).
    - now rewrite (probe_absent _ _ _ _ _ E). }
  destruct (dict_get groups (KStr (text "Exif"))) as [v|] eqn:E.
  - destruct v; try contradiction.
    rewrite (probe_mapping _ _ _ _ _ _ E).
    destruct (usable_text (dict_get d (KInt DateTimeOriginal))); [reflexivity|].
    rewrite (probe_mapping _ _ _ _ _ _ E).
    destruct (usable_text (dict_get d (KInt DateTimeDigitized)));
      [reflexivity|].
    exact Hlast.
  - rewrite !(probe_absent _ _ _ _ _ E). exact Hlast.
Qed.

Lemma tree_tag_text_encodable groups ifd_name tag_id s :
  tree_encodable groups = true ->
  tree_tag (PDict groups) ifd_name tag_id = Some (PStr s) ->
  in_problematic_tags tag_id = false ->
  is_ok (utf8_encode s) = true.
Proof.
  intros Henc Ht Hk. simpl in Ht.
  destruct (dict_get groups ifd_name) as [v|] eqn:Eg; [|discriminate].
  destruct v; try discriminate.
  pose proof (tree_encodable_group _ _ _ Henc (dict_get_In _ _ _ Eg)) as Hi.
  unfold ifd_encodable in Hi. rewrite forallb_forall in Hi.
  pose proof (Hi _ (dict_get_In _ _ _ Ht)) as Hv. simpl in Hv.
  rewrite Hk in Hv. simpl in Hv. rewrite utf8_encode_ok. exact Hv.
Qed.

(** What is stored for a value yields the text the value yields. *)
Lemma usable_text_stored (v : pyval) :
  (forall s, v = PStr s -> unicode s /\ is_ok (utf8_encode s) = true) ->
  usable_text match clean_tag_value v with
              | Ok (Some v') => Some v'
              | _ => None
              end
  = usable_text (Some v).
Proof.
  intros Hs. rewrite clean_tag_value_spec.
  destruct v; simpl; try reflexivity;
    try match goal with
        | |- context [if ?c then _ else _] => now destruct c
        end.
  destruct (Hs s eq_refl) as [Hu Hok].
  destruct (utf8_encode s) as [b|e] eqn:E; [|discriminate]. simpl.
  now rewrite (utf8_decode_encode Ignore s Hu b E).
Qed.

(** X6.  Sanitizing a tree first does not change the timestamp that is
    resolved from it: for a well-formed tree the sanitizer does not give
    up on, whose Exif entry is not one of the basic values it passes
    through, the resolver applied to the sanitized tree returns the first
    usable field of the tree itself (DateTimeOriginal, DateTimeDigitized,
    then DateTime), or None when it has none. *)
Theorem resolved_after_sanitizing
  (object_eq : pyval -> Z -> result bool) (groups : pydict) :
  dict_wf groups ->
  (forall name ifd, In (name, PDict ifd) groups -> dict_wf ifd) ->
  tree_encodable groups = true ->
  entry_not_basic groups "Exif" = true ->
  (forall name tag s,
      tree_tag (PDict groups) name tag = Some (PStr s) -> unicode s) ->
  get_creation_datetime_from_exif object_eq (clean_exif_data (PDict groups)) =
  match first_usable groups with
  | Some s => PStr s
  | None => PNone
  end.
Proof.
  intros Hwf Hwfs Henc Hexif Huni.
  assert (Hfield : forall name tag,
             in_problematic_tags (KInt tag) = false ->
             usable_text (tree_tag (clean_exif_data (PDict groups))
                            (KStr (text name)) (KInt tag))
             = usable_text (tree_tag (PDict groups) (KStr (text name)) (KInt tag))).
  { intros name tag Hk.
    rewrite (tree_tag_clean_exif_data_any groups _ _ Hwf Hwfs), Henc, Hk.
    destruct (tree_tag (PDict groups) (KStr (text name)) (KInt tag))
      as [v|] eqn:Et; [|reflexivity].
    apply usable_text_stored. intros s ->. split.
    - exact (Huni _ _ _ Et).
    - exact (tree_tag_text_encodable _ _ _ _ Henc Et Hk). }
  assert (Hsame : forall out,
             clean_exif_data (PDict groups) = PDict out ->
             first_usable out = first_usable groups).
  { intros out Ho. unfold first_usable.
    rewrite <- !Ho, !Hfield by reflexivity. reflexivity. }
  destruct (clean_exif_data_shape (PDict groups)) as [Hnone|[out Ho]].
  - rewrite Hnone. unfold first_usable.
    rewrite <- !Hfield by reflexivity. rewrite Hnone. reflexivity.
  - rewrite <- (Hsame out Ho), Ho.
    pose proof (clean_exif_data_sanitized _ _ Ho) as Hs.
    unfold get_creation_datetime_from_exif. cbn [truthy].
    assert (Hne : nonempty out = true).
    { unfold sanitized_tree in Hs. rewrite !andb_true_iff in Hs. tauto. }
    rewrite Hne. cbn [negb]. apply probe_datetime_tags.
    + rewrite clean_exif_data_dict in Ho.
      destruct (clean_groups groups []) as [out'|e] eqn:Eg; [|discriminate].
      destruct (nonempty out'); [|discriminate]. injection Ho as ->.
      rewrite (clean_groups_get groups [] out _ Eg Hwf). simpl.
      unfold entry_not_basic in Hexif.
      destruct (dict_get groups (KStr (text "Exif"))) as [v|]; [|exact I].
      destruct v; simpl in *; try discriminate; try exact I.
      destruct (clean_ifd d []) as [c|e]; [|exact I].
      now destruct (nonempty c).
    + destruct (dict_get out (KStr (text "0th"))) as [v|] eqn:E; [|exact I].
      pose proof (sanitized_tree_get _ _ _ Hs E) as Hv.
      destruct v; simpl in Hv; try discriminate; try exact I; exact Hv.
Qed.

(** ** The JSON-safe conversion, applied twice *)

Lemma fold_set_wf (items : list (pykey * pyval)) :
  forall acc,
    dict_wf acc ->
    dict_wf (fold_left (fun d kv => dict_set d (fst kv) (snd kv)) items acc).
Proof.
  induction items as [|[k v] r IH]; intros acc Hacc; simpl; [assumption|].
  apply IH. now apply dict_set_wf.
Qed.

Lemma convert_bytes_for_json_normal (obj : pyval) :
  json_normal (convert_bytes_for_json obj) = true.
Proof.
  induction obj as [ | b | z | f | s | b | l IH | l IH | d IH | s ]
    using pyval_nested_ind; simpl; try reflexivity.
  - now destruct (utf8_decode Strict b).
  - apply forallb_forall. intros x Hx. apply in_map_iff in Hx.
    destruct Hx as (y & <- & Hy). rewrite Forall_forall in IH. now apply IH.
  - apply forallb_forall. intros x Hx. apply in_map_iff in Hx.
    destruct Hx as (y & <- & Hy). rewrite Forall_forall in IH. now apply IH.
  - apply andb_true_iff. split.
    + apply (fold_set_wf _ []). reflexivity.
    + apply forallb_forall. apply Forall_forall.
      apply fold_set_Forall; [constructor|].
      apply Forall_forall. intros x Hx. apply in_map_iff in Hx.
      destruct Hx as (y & <- & Hy). rewrite Forall_forall in IH. simpl.
      now apply IH.
Qed.

Lemma json_normal_fixed (obj : pyval) :
  json_normal obj = true -> convert_bytes_for_json obj = obj.
Proof.
  induction obj as [ | b | z | f | s | b | l IH | l IH | d IH | s ]
    using pyval_nested_ind; simpl; try reflexivity; try discriminate.
  - intros H. f_equal. rewrite forallb_forall in H.
    rewrite Forall_forall in IH.
    rewrite <- (map_id l) at 2. apply map_ext_in. intros x Hx. auto.
  - rewrite andb_true_iff. intros [Hd H]. f_equal.
    rewrite forallb_forall in H. rewrite Forall_forall in IH.
    assert (Hmap : List.map (fun kv => (KStr (str_of_key (fst kv)),
                                        convert_bytes_for_json (snd kv))) d
                   = d).
    { rewrite <- (map_id d) at 2. apply map_ext_in. intros [k v] Hx.
      specialize (H _ Hx). specialize (IH _ Hx). simpl in *.
      apply andb_true_iff in H. destruct H as [Hk Hv].
      destruct k; [discriminate|]. simpl. now rewrite (IH Hv). }
    rewrite Hmap. unfold dict_of_items. now rewrite fold_set_distinct.
Qed.

(** X7.  Converting twice gives what converting once gives; and a value
    with nothing to convert (None, booleans, numbers and texts, in lists
    and in mappings keyed by texts) is returned as it is. *)
Theorem convert_bytes_for_json_idempotent :
  (forall obj,
      convert_bytes_for_json (convert_bytes_for_json obj)
      = convert_bytes_for_json obj)
  /\ (forall obj, json_normal obj = true -> convert_bytes_for_json obj = obj).
Proof.
  split.
  - intros obj. apply json_normal_fixed. apply convert_bytes_for_json_normal.
  - exact json_normal_fixed.
Qed.

(** ** The curated fields and the ICC preview of the backup *)

Lemma hex_firstn (n : nat) (b : pybytes) :
  hex (firstn n b) = firstn (2 * n) (hex b).
Proof.
  unfold hex. revert b. induction n as [|n IH]; intros b; [reflexivity|].
  destruct b as [|x r]; [reflexivity|].
  replace (2 * S n)%nat with (S (S (2 * n))) by lia.
  cbn [firstn flat_map app]. now rewrite IH.
Qed.

(** X8.  The ICC preview of the backup is the hex rendering of the first
    50 bytes of the profile, whichever branch is taken: two characters a
    byte, 100 characters at most, a prefix of the rendering of the whole
    profile. *)
Theorem icc_preview_bounds (icc : pybytes) :
  icc_preview icc = hex (firstn 50 icc)
  /\ List.length (icc_preview icc) = (2 * Nat.min 50 (List.length icc))%nat
  /\ (List.length (icc_preview icc) <= 100)%nat
  /\ icc_preview icc = firstn 100 (hex icc).
Proof.
  assert (H : icc_preview icc = hex (firstn 50 icc)).
  { unfold icc_preview. destruct (Nat.ltb_spec 50 (List.length icc));
      [reflexivity|]. now rewrite firstn_all2. }
  rewrite H, hex_length, length_firstn. repeat split; try lia.
  apply (hex_firstn 50).
Qed.

(** ** The field count of the display *)

Lemma exif_count_ge (exif : pydict) :
  forallb (fun kv => settled_entry (snd kv)) exif = true ->
  (List.length exif <= exif_count exif)%nat.
Proof.
  unfold exif_count. induction exif as [|[name v] r IH]; simpl; [lia|].
  rewrite andb_true_iff. intros [Hv Hr]. specialize (IH Hr).
  destruct v; simpl in *; try lia.
  unfold settled_ifd in Hv. rewrite !andb_true_iff in Hv.
  destruct Hv as [[Hn _] _]. destruct d; [discriminate|]. simpl. lia.
Qed.

(** X9.  On any tree the sanitizer returns, the number of fields the
    display reports is at least the number of entries of the tree, so it
    is never zero. *)
Theorem exif_count_positive (exif_dict : pyval) (cleaned : pydict) :
  clean_exif_data exif_dict = PDict cleaned ->
  (1 <= List.length cleaned <= exif_count cleaned)%nat.
Proof.
  intros H. apply clean_exif_data_sanitized in H.
  unfold sanitized_tree in H. rewrite !andb_true_iff in H.
  destruct H as [[Hne _] Hall]. split; [now destruct cleaned; simpl; try lia|].
  now apply exif_count_ge.
Qed.

(** ** The curated fields of the backup *)

Lemma collect_camera_mapping object_eq (ifd : pydict)
  (tags : list (Z * pystr)) :
  forall acc,
    collect_camera object_eq (PDict ifd) tags acc
    = Ok (collect_fields camera_value ifd tags acc).
Proof.
  induction tags as [|[tag key] rest IH]; intros acc; simpl; [reflexivity|].
  unfold dict_mem. destruct (dict_get ifd (KInt tag)) as [v|]; simpl; [|apply IH].
  destruct v; simpl; try apply IH.
  destruct (utf8_decode Ignore b); apply IH.
Qed.

Lemma float_eq_int_zero (f : spec_float) :
  float_eq_int f 0 = match f with S754_zero _ => true | _ => false end.
Proof.
  destruct f as [sign| sign | |sign m e]; try reflexivity.
  unfold float_eq_int. destruct (Z.leb_spec 0 e) as [He|He].
  - apply Z.eqb_neq. pose proof (Z.pow_pos_nonneg 2 e ltac:(lia) He).
    destruct sign; nia.
  - apply Z.eqb_neq. destruct sign; lia.
Qed.

(** [x != 0] for a value that is no object of another type. *)
Lemma ne_int_zero object_eq object_ne (x : pyval) :
  (forall s, x <> PObject s) ->
  ne_int object_eq object_ne x 0 = Ok (negb (is_zero x)).
Proof.
  intros Hx. destruct x; simpl; try reflexivity.
  - now destruct b.
  - rewrite float_eq_int_zero. now destruct f.
  - now elim (Hx s).
Qed.

Lemma collect_technical_mapping object_eq object_ne repr (ifd : pydict)
  (tags : list (Z * pystr)) :
  (forall tag key v,
      In (tag, key) tags -> dict_get ifd (KInt tag) = Some v ->
      object_denominator v = false) ->
  forall acc,
    collect_technical object_eq object_ne repr (PDict ifd) tags acc
    = Ok (collect_fields (technical_value repr) ifd tags acc).
Proof.
  induction tags as [|[tag key] rest IH]; intros Hall acc; [reflexivity|].
  assert (Hrest : forall acc,
             collect_technical object_eq object_ne repr (PDict ifd) rest acc
             = Ok (collect_fields (technical_value repr) ifd rest acc)).
  { apply IH. intros tag' key' v Hin. apply (Hall tag' key' v). now right. }
  specialize (Hall tag key). cbn [collect_technical collect_fields].
  cbn [contains_tag bind get_tag]. unfold dict_mem.
  destruct (dict_get ifd (KInt tag)) as [v|]; cbn [bind]; [|apply Hrest].
  specialize (Hall v (or_introl eq_refl) eq_refl).
  destruct v; cbn [technical_value]; try apply Hrest.
  - destruct (utf8_decode Ignore b); apply Hrest.
  - destruct l as [|value0 [|value1 [|c r]]]; try apply Hrest.
    unfold render_fraction. rewrite ne_int_zero.
    + cbn [bind]. destruct (is_zero value1); cbn [negb bind]; apply Hrest.
    + intros s ->. discriminate.
Qed.

(** Both loops raise at their first tag on a basic value. *)
Lemma collect_camera_basic object_eq (v : pyval) tag key rest acc :
  is_basic v = true -> (256 <= tag)%Z ->
  exists e, collect_camera object_eq v ((tag, key) :: rest) acc = Raise e.
Proof.
  intros Hb Ht. destruct v; try discriminate; simpl; eauto.
  destruct (Z.leb_spec 0 tag); destruct (Z.ltb_spec tag 256); simpl; eauto; lia.
Qed.

Lemma collect_technical_basic object_eq object_ne repr (v : pyval)
  tag key rest acc :
  is_basic v = true -> (256 <= tag)%Z ->
  exists e,
    collect_technical object_eq object_ne repr v ((tag, key) :: rest) acc
    = Raise e.
Proof.
  intros Hb Ht. destruct v; try discriminate; simpl; eauto.
  destruct (Z.leb_spec 0 tag); destruct (Z.ltb_spec tag 256); simpl; eauto; lia.
Qed.

Lemma collect_fields_Forall (P : pykey * pyval -> Prop)
  (record : pyval -> option pyval) (ifd : pydict) (tags : list (Z * pystr)) :
  (forall tag key v x,
      In (tag, key) tags -> dict_get ifd (KInt tag) = Some v ->
      record v = Some x -> P (KStr key, x)) ->
  forall acc, Forall P acc -> Forall P (collect_fields record ifd tags acc).
Proof.
  induction tags as [|[tag key] rest IH]; intros Hrec acc Hacc; simpl;
    [assumption|].
  assert (Hrest : forall tag key v x,
             In (tag, key) rest -> dict_get ifd (KInt tag) = Some v ->
             record v = Some x -> P (KStr key, x))
    by (intros; eapply Hrec; eauto; now right).
  destruct (dict_get ifd (KInt tag)) as [v|] eqn:Ev; [|now apply IH].
  destruct (record v) as [x|] eqn:Ex; [|now apply IH].
  apply IH; [assumption|]. apply dict_set_Forall; [assumption|].
  apply (Hrec tag key v x); auto. now left.
Qed.

Lemma collect_fields_get (record : pyval -> option pyval) (ifd : pydict)
  (tags : list (Z * pystr)) :
  NoDup (List.map snd tags) ->
  forall acc,
    (forall tag key,
        In (tag, key) tags ->
        dict_get (collect_fields record ifd tags acc) (KStr key) =
        match dict_get ifd (KInt tag) with
        | Some v =>
            match record v with
            | Some x => Some x
            | None => dict_get acc (KStr key)
            end
        | None => dict_get acc (KStr key)
        end)
    /\ (forall key,
          ~ In key (List.map snd tags) ->
          dict_get (collect_fields record ifd tags acc) (KStr key)
          = dict_get acc (KStr key)).
Proof.
  induction tags as [|[tag0 key0] rest IH]; intros Hnd acc; simpl.
  - split; [intros ? ? [] | reflexivity].
  - inversion Hnd as [|? ? Hnotin Hrest]; subst.
    set (acc' := match dict_get ifd (KInt tag0) with
                 | Some v => match record v with
                             | Some x => dict_set acc (KStr key0) x
                             | None => acc
                             end
                 | None => acc
                 end).
    assert (Hstep : match dict_get ifd (KInt tag0) with
                    | Some v =>
                        match record v with
                        | Some x => collect_fields record ifd rest
                                      (dict_set acc (KStr key0) x)
                        | None => collect_fields record ifd rest acc
                        end
                    | None => collect_fields record ifd rest acc
                    end = collect_fields record ifd rest acc').
    { unfold acc'. destruct (dict_get ifd (KInt tag0)); [|reflexivity].
      now destruct (record p). }
    rewrite Hstep. destruct (IH Hrest acc') as [Hin Hout].
    assert (Hother : forall key, key <> key0 ->
               dict_get acc' (KStr key) = dict_get acc (KStr key)).
    { intros key Hne. unfold acc'.
      destruct (dict_get ifd (KInt tag0)); [|reflexivity].
      destruct (record p); [|reflexivity].
      apply dict_get_set_other. congruence. }
    split.
    + intros tag key [[= -> ->]|Hin'].
      * rewrite (Hout key Hnotin). unfold acc'.
        destruct (dict_get ifd (KInt tag)); [|reflexivity].
        destruct (record p); [apply dict_get_set_same | reflexivity].
      * rewrite (Hin tag key Hin').
        assert (Hne : key <> key0).
        { intros ->. apply Hnotin. apply (in_map snd) in Hin'. exact Hin'. }
        rewrite (Hother key Hne). reflexivity.
    + intros key Hk. rewrite Hout by tauto. apply Hother.
      intros ->. apply Hk. now left.
Qed.

Lemma tech_keys_NoDup : NoDup (List.map snd tech_tags).
Proof.
  apply (NoDup_map_inv (fun s => KStr s)). apply distinct_NoDup. reflexivity.
Qed.

Lemma sanitized_group_value (exif : pydict) name ifd tag v :
  sanitized_tree exif = true ->
  dict_get exif name = Some (PDict ifd) ->
  dict_get ifd tag = Some v ->
  settled_value v = true.
Proof.
  intros Hs Hg Hv. pose proof (sanitized_tree_get _ _ _ Hs Hg) as Hi.
  simpl in Hi. unfold settled_ifd in Hi. rewrite !andb_true_iff in Hi.
  destruct Hi as [_ Hall]. rewrite forallb_forall in Hall.
  specialize (Hall _ (dict_get_In _ _ _ Hv)). unfold settled_tag in Hall.
  now apply andb_true_iff in Hall.
Qed.

Lemma settled_camera_value (v x : pyval) :
  settled_value v = true -> camera_value v = Some x ->
  text_int_or_pair x = true.
Proof.
  destruct v; simpl; try discriminate.
  - now intros _ [= <-].
  - now intros _ [= <-].
  - intros _. destruct (utf8_decode Ignore b); [|discriminate].
    now intros [= <-].
  - intros H [= <-]. destruct l as [|a [|b [|c r]]]; try discriminate.
    simpl in *. apply andb_true_iff in H. destruct H as [Ha Hb].
    unfold int32_value in Ha, Hb. unfold is_int.
    destruct (as_int a); [|discriminate]. now destruct (as_int b).
Qed.

Lemma settled_technical_value repr (v x : pyval) :
  settled_value v = true -> technical_value repr v = Some x ->
  text_or_int x = true.
Proof.
  destruct v; simpl; try discriminate.
  - now intros _ [= <-].
  - now intros _ [= <-].
  - intros _. destruct (utf8_decode Ignore b); [|discriminate].
    now intros [= <-].
  - intros H. destruct l as [|a [|b [|c r]]]; try discriminate.
    now intros [= <-].
Qed.

Lemma settled_object_denominator (v : pyval) :
  settled_value v = true -> object_denominator v = false.
Proof.
  intros H. destruct v; try reflexivity.
  destruct l as [|a [|b [|c r]]]; try reflexivity; [|now destruct b].
  destruct b; try reflexivity.
  simpl in H. apply andb_true_iff in H. destruct H as [_ Hb]. discriminate.
Qed.

(** On a sanitized tree whose 0th and Exif entries are groups or missing
    neither block raises, and what is recorded is what the two loops
    record tag by tag. *)
Lemma camera_and_technical_info_mapping object_eq object_ne repr
  (exif : pydict) :
  sanitized_tree exif = true ->
  group_is_mapping exif "0th" = true ->
  group_is_mapping exif "Exif" = true ->
  camera_and_technical_info object_eq object_ne repr exif
  = Ok (group_fields camera_value exif "0th" camera_tags,
        group_fields (technical_value repr) exif "Exif" tech_tags).
Proof.
  intros Hs H0 H1. unfold camera_and_technical_info, group_fields.
  assert (Hne : truthy (PDict exif) = true).
  { unfold sanitized_tree in Hs. rewrite !andb_true_iff in Hs. simpl. tauto. }
  rewrite Hne. unfold camera_block, technical_block.
  unfold group_is_mapping in H0, H1.
  destruct (dict_get exif (KStr (text "0th"))) as [v0|];
    [destruct v0; try discriminate; rewrite collect_camera_mapping|];
    cbn [bind];
    (destruct (dict_get exif (KStr (text "Exif"))) as [v1|] eqn:E1;
     [destruct v1; try discriminate|reflexivity]);
    (rewrite collect_technical_mapping; [reflexivity|]);
    intros tag key v _ Hv; apply settled_object_denominator;
    exact (sanitized_group_value _ _ _ _ _ Hs E1 Hv).
Qed.

(** On a sanitized tree one of whose 0th and Exif entries is a value
    passed through, the block of that entry raises. *)
Lemma camera_and_technical_info_basic object_eq object_ne repr
  (exif : pydict) :
  sanitized_tree exif = true ->
  (group_is_mapping exif "0th" && group_is_mapping exif "Exif")%bool = false ->
  exists e, camera_and_technical_info object_eq object_ne repr exif = Raise e.
Proof.
  intros Hs Hm. unfold camera_and_technical_info.
  assert (Hne : truthy (PDict exif) = true).
  { unfold sanitized_tree in Hs. rewrite !andb_true_iff in Hs. simpl. tauto. }
  rewrite Hne. unfold camera_block, technical_block.
  unfold group_is_mapping in Hm.
  assert (Hexif : forall camera_info : pydict,
             match dict_get exif (KStr (text "Exif")) with
             | Some (PDict _) | None => true
             | Some _ => false
             end = false ->
             exists e,
               (technical_info <-
                  match dict_get exif (KStr (text "Exif")) with
                  | Some exif_data =>
                      collect_technical object_eq object_ne repr exif_data
                        tech_tags []
                  | None => Ok []
                  end ;;
                Ok (camera_info, technical_info)) = Raise e).
  { intros camera_info H.
    destruct (dict_get exif (KStr (text "Exif"))) as [v|] eqn:E;
      [|discriminate].
    pose proof (sanitized_tree_get _ _ _ Hs E) as Hv.
    assert (Hb : is_basic v = true) by (destruct v; try discriminate; exact Hv).
    destruct (collect_technical_basic object_eq object_ne repr v
                DateTimeOriginal (text "datetime_original")
                (tl tech_tags) [] Hb ltac:(unfold DateTimeOriginal; lia))
      as [e He].
    exists e.
    change tech_tags
      with ((DateTimeOriginal, text "datetime_original") :: tl tech_tags).
    now rewrite He. }
  destruct (dict_get exif (KStr (text "0th"))) as [v|] eqn:E.
  - pose proof (sanitized_tree_get _ _ _ Hs E) as Hv.
    destruct (is_basic v) eqn:Hb.
    + destruct (collect_camera_basic object_eq v Make (text "camera_make")
                  (tl camera_tags) [] Hb ltac:(unfold Make; lia))
        as [e He].
      exists e.
      change camera_tags with ((Make, text "camera_make") :: tl camera_tags).
      now rewrite He.
    + destruct v; try discriminate.
      rewrite collect_camera_mapping. cbn [bind]. apply Hexif. exact Hm.
  - cbn [bind]. apply Hexif. exact Hm.
Qed.

Lemma group_fields_Forall (P : pykey * pyval -> Prop) (Q : pyval -> Prop)
  (record : pyval -> option pyval) (exif : pydict) (name : string)
  (tags : list (Z * pystr)) :
  sanitized_tree exif = true ->
  (forall v x, settled_value v = true -> record v = Some x -> Q x) ->
  forall k x,
    In (k, x) (group_fields record exif name tags) ->
    Q x /\ In k (List.map (fun t => KStr (snd t)) tags).
Proof.
  intros Hs Hrec k x Hin. unfold group_fields in Hin.
  destruct (dict_get exif (KStr (text name))) as [v|] eqn:E; [|now elim Hin].
  destruct v; try (now elim Hin).
  assert (Hall : Forall (fun kv =>
                   Q (snd kv)
                   /\ In (fst kv) (List.map (fun t => KStr (snd t)) tags))
                   (collect_fields record d tags [])).
  { apply collect_fields_Forall; [|constructor].
    intros tag key v0 x0 Hin0 Hg Hx. simpl fst. simpl snd. split.
    - apply (Hrec v0); [|assumption].
      exact (sanitized_group_value _ _ _ _ _ Hs E Hg).
    - apply (in_map (fun t => KStr (snd t)) _ _ Hin0). }
  rewrite Forall_forall in Hall. exact (Hall _ Hin).
Qed.

(** X10.  When the EXIF of the bundle is a tree the sanitizer returned,
    the backup records its camera and technical fields exactly when the
    0th entry and the Exif entry of the tree are groups (or missing): then
    every camera field is a text, an integer or a pair of integers, every
    technical field a text or an integer, each under one of the fixed
    names, and no field is a binary value.  When one of the two entries
    is a value the sanitizer passed through, the camera block or the
    technical block raises, nothing of either is recorded and the backup
    falls back to its simplified form. *)
Theorem backup_fields_json_safe
  (object_eq object_ne : pyval -> Z -> result bool) (repr : pyval -> pystr)
  (exif_dict : pyval) (exif : pydict) :
  clean_exif_data exif_dict = PDict exif ->
  if (group_is_mapping exif "0th" && group_is_mapping exif "Exif")%bool then
    exists camera_info technical_info,
      camera_and_technical_info object_eq object_ne repr exif
      = Ok (camera_info, technical_info)
      /\ (forall k v, In (k, v) camera_info ->
            text_int_or_pair v = true
            /\ In k (List.map (fun t => KStr (snd t)) camera_tags))
      /\ (forall k v, In (k, v) technical_info ->
            text_or_int v = true
            /\ In k (List.map (fun t => KStr (snd t)) tech_tags))
  else
    exists e,
      camera_and_technical_info object_eq object_ne repr exif = Raise e.
Proof.
  intros H. apply clean_exif_data_sanitized in H.
  destruct (group_is_mapping exif "0th" && group_is_mapping exif "Exif")%bool
    eqn:Hm; [|now apply camera_and_technical_info_basic].
  apply andb_true_iff in Hm. destruct Hm as [H0 H1].
  eexists. eexists. split; [|split].
  - now apply camera_and_technical_info_mapping.
  - apply (group_fields_Forall (fun _ => True)
             (fun x => text_int_or_pair x = true)); [assumption|].
    exact settled_camera_value.
  - apply (group_fields_Forall (fun _ => True)
             (fun x => text_or_int x = true)); [assumption|].
    exact (settled_technical_value repr).
Qed.

(** X11.  When the EXIF of the bundle is a tree the sanitizer returned
    and its 0th entry is a group (or missing), a technical field of the
    Exif group whose value is a pair of integers is recorded as the text
    numerator/denominator, and as the numerator alone when the
    denominator is zero: nothing is divided. *)
Theorem technical_info_fraction
  (object_eq object_ne : pyval -> Z -> result bool) (repr : pyval -> pystr)
  (exif_dict : pyval) (exif ifd : pydict) (tag : Z) (key : pystr) (p q : Z) :
  clean_exif_data exif_dict = PDict exif ->
  group_is_mapping exif "0th" = true ->
  dict_get exif (KStr (text "Exif")) = Some (PDict ifd) ->
  In (tag, key) tech_tags ->
  dict_get ifd (KInt tag) = Some (PTuple [PInt p; PInt q]) ->
  exists camera_info technical_info,
    camera_and_technical_info object_eq object_ne repr exif
    = Ok (camera_info, technical_info)
    /\ dict_get technical_info (KStr key)
       = Some (PStr (if Z.eqb q 0 then str_of_int p
                     else str_of_int p ++ text "/" ++ str_of_int q)).
Proof.
  intros H H0 Hg Hin Hv. apply clean_exif_data_sanitized in H.
  eexists. eexists. split.
  - apply camera_and_technical_info_mapping; [assumption | assumption|].
    unfold group_is_mapping. now rewrite Hg.
  - unfold group_fields. rewrite Hg.
    destruct (collect_fields_get (technical_value repr) ifd tech_tags
                tech_keys_NoDup []) as [Hget _].
    rewrite (Hget tag key Hin), Hv. reflexivity.
Qed.

(** X12.  The backup and the resolver read the capture time alike.  When
    the EXIF of the bundle is a tree the sanitizer returned, its 0th
    entry is a group (or missing) and its Exif group holds a binary
    DateTimeOriginal, the backup records as datetime_original the text
    that value decodes to (errors ignored), stripped; and the resolver
    returns that same text exactly when it is not empty and not the
    placeholder. *)
Theorem datetime_original_agrees
  (object_eq object_ne : pyval -> Z -> result bool) (repr : pyval -> pystr)
  (exif_dict : pyval) (exif ifd : pydict) (b : pybytes) :
  clean_exif_data exif_dict = PDict exif ->
  group_is_mapping exif "0th" = true ->
  dict_get exif (KStr (text "Exif")) = Some (PDict ifd) ->
  dict_get ifd (KInt DateTimeOriginal) = Some (PBytes b) ->
  exists s camera_info technical_info,
    utf8_decode Ignore b = Ok s
    /\ camera_and_technical_info object_eq object_ne repr exif
       = Ok (camera_info, technical_info)
    /\ dict_get technical_info (KStr (text "datetime_original"))
       = Some (PStr (strip s))
    /\ (get_creation_datetime_from_exif object_eq (PDict exif)
        = PStr (strip s)
        <-> strip s <> [] /\ strip s <> placeholder).
Proof.
  intros H H0 Hg Hv. apply clean_exif_data_sanitized in H.
  destruct (utf8_decode_ignore_ok b) as [t Ht]. exists t.
  eexists. eexists. split; [exact Ht|]. split; [|split].
  - apply camera_and_technical_info_mapping; [assumption | assumption|].
    unfold group_is_mapping. now rewrite Hg.
  - unfold group_fields. rewrite Hg.
    destruct (collect_fields_get (technical_value repr) ifd tech_tags
                tech_keys_NoDup []) as [Hget _].
    rewrite (Hget DateTimeOriginal (text "datetime_original"));
      [|now left].
    rewrite Hv. simpl. now rewrite Ht.
  - unfold get_creation_datetime_from_exif.
    assert (Hexif : nonempty exif = true)
      by (destruct exif; [discriminate | reflexivity]).
    cbn [truthy]. rewrite Hexif. cbn [negb]. split.
    + destruct (probe object_eq exif datetime_tags) as [v|e] eqn:E;
        [|discriminate].
      intros ->.
      destruct (probe_result object_eq exif datetime_tags _ E)
        as [Hnone|(x & Hx & Hn & Hp)]; [discriminate|].
      injection Hx as Hx. rewrite Hx. now split.
    + intros [Hne Hp]. unfold datetime_tags.
      rewrite (probe_mapping _ _ _ _ _ _ Hg), Hv. simpl. rewrite Ht.
      assert (Hc : (nonempty (strip t)
                    && negb (pystr_eqb (strip t) placeholder))%bool = true).
      { apply andb_true_iff. split; [now destruct (strip t)|].
        apply negb_true_iff.
        destruct (pystr_eqb (strip t) placeholder) eqn:Ep; [|reflexivity].
        apply pystr_eqb_eq in Ep. contradiction. }
      now rewrite Hc.
Qed.

(** ** The extractor *)

Lemma collect_other_info_get (items : pydict) :
  forall other k,
    dict_wf items ->
    dict_get (collect_other_info items other) k =
    match dict_get items k with
    | Some v => if is_reserved k then dict_get other k else Some v
    | None => dict_get other k
    end.
Proof.
  unfold dict_wf.
  induction items as [|[k0 v0] r IH]; intros other k; simpl; [reflexivity|].
  rewrite andb_true_iff, negb_true_iff. intros [Hk0 Hr].
  assert (Hnone : dict_get r k0 = None).
  { apply dict_get_None. intros Hin.
    apply existsb_key_eqb in Hin. congruence. }
  destruct (key_eqb k0 k) eqn:E.
  - apply key_eqb_eq in E. subst k0.
    destruct (is_reserved k); rewrite (IH _ k Hr), Hnone;
      [reflexivity | apply dict_get_set_same].
  - apply key_eqb_neq in E.
    destruct (is_reserved k0); rewrite (IH _ k Hr);
      rewrite ?(dict_get_set_other _ _ _ _ E); reflexivity.
Qed.

Lemma collect_other_info_wf (items : pydict) :
  forall other, dict_wf other -> dict_wf (collect_other_info items other).
Proof.
  induction items as [|[k0 v0] r IH]; intros other Ho; simpl; [assumption|].
  destruct (is_reserved k0); apply IH; [assumption | now apply dict_set_wf].
Qed.

(** X13.  From an opened image the extractor builds a bundle whose
    other-info holds exactly the entries of the image info that are not
    named exif, icc_profile or xmp, each with its value, and whose EXIF
    is None or a tree of the sanitized shape, whatever the EXIF loader
    returns or raises. *)
Theorem extract_all_metadata_bundle
  (piexif_load : pyval -> result pyval) (info : pydict) :
  dict_wf info ->
  let bundle := extract_all_metadata piexif_load (Ok info) in
  (forall k,
      dict_get (other_info bundle) k
      = if is_reserved k then None else dict_get info k)
  /\ dict_wf (other_info bundle)
  /\ (exif bundle = PNone
      \/ exists tree, exif bundle = PDict tree /\ sanitized_tree tree = true).
Proof.
  intros Hwf bundle. subst bundle. simpl. split; [|split].
  - intros k. rewrite (collect_other_info_get info [] k Hwf). simpl.
    destruct (dict_get info k); now destruct (is_reserved k).
  - now apply collect_other_info_wf.
  - destruct (dict_get info (KStr (text "exif"))) as [raw|]; [|now left].
    destruct (piexif_load raw) as [exif_dict|e]; [|now left].
    destruct (clean_exif_data_shape exif_dict) as [H|[out H]]; [now left|].
    right. exists out. split; [assumption|].
    now apply (clean_exif_data_sanitized exif_dict).
Qed.

(** ** What the resolver reads *)

Lemma probe_agree object_eq (g g' : pydict) (tags : list (pystr * Z)) :
  (forall name tag, In (name, tag) tags ->
                    dict_get g (KStr name) = dict_get g' (KStr name)) ->
  probe object_eq g tags = probe object_eq g' tags.
Proof.
  induction tags as [|[name tag] rest IH]; intros H; simpl; [reflexivity|].
  rewrite <- (H name tag) by now left.
  rewrite IH by (intros; eapply H; right; eassumption).
  reflexivity.
Qed.

(** X14.  The resolver reads the Exif and 0th entries and nothing else:
    two trees, neither empty, with the same Exif entry and the same 0th
    entry resolve to the same timestamp, whatever their other groups
    hold. *)
Theorem get_creation_datetime_from_exif_reads
  (object_eq : pyval -> Z -> result bool) (g g' : pydict) :
  g <> [] -> g' <> [] ->
  dict_get g (KStr (text "Exif")) = dict_get g' (KStr (text "Exif")) ->
  dict_get g (KStr (text "0th")) = dict_get g' (KStr (text "0th")) ->
  get_creation_datetime_from_exif object_eq (PDict g)
  = get_creation_datetime_from_exif object_eq (PDict g').
Proof.
  intros Hg Hg' Hexif H0th. unfold get_creation_datetime_from_exif.
  cbn [truthy]. destruct g; [contradiction|]. destruct g'; [contradiction|].
  cbn [nonempty negb]. rewrite (probe_agree object_eq (p :: g) (p0 :: g') datetime_tags);
    [reflexivity|].
  intros name tag [[= <- <-]|[[= <- <-]|[[= <- <-]|[]]]]; assumption.
Qed.

(** * The further properties on the sample trees *)

Lemma photo_groups_wf :
  forall name ifd, In (name, PDict ifd) photo -> dict_wf ifd.
Proof.
  intros name ifd H. simpl in H.
  destruct H as [H|[H|[H|[H|[]]]]]; try discriminate;
    injection H as _ <-; reflexivity.
Qed.

Lemma tree_tag_In (g : pydict) (name tag : pykey) (v : pyval) :
  tree_tag (PDict g) name tag = Some v ->
  exists ifd, In (name, PDict ifd) g /\ In (tag, v) ifd.
Proof.
  simpl. destruct (dict_get g name) as [x|] eqn:E; [|discriminate].
  destruct x; try discriminate. intros H. exists d.
  split; now apply dict_get_In.
Qed.

Lemma photo_texts_unicode :
  forall name tag s, tree_tag (PDict photo) name tag = Some (PStr s) -> unicode s.
Proof.
  intros name tag s H. apply tree_tag_In in H. destruct H as (ifd & Hi & Ht).
  simpl in Hi. destruct Hi as [Hi|[Hi|[Hi|[Hi|[]]]]]; try discriminate;
    injection Hi as _ <-; simpl in Ht;
    repeat (destruct Ht as [Ht|Ht]; [try discriminate|]); try contradiction.
  injection Ht as _ <-. unfold unicode. repeat constructor.
Qed.

(** X1 on the photograph: the Make, a text, is stored as bytes that
    decode to it. *)
Lemma text_tag_witness :
  exists b,
    tree_tag (clean_exif_data (PDict photo)) (KStr (text "0th")) (KInt 271)
    = Some (PBytes b)
    /\ utf8_encode (text "Acme") = Ok b
    /\ utf8_decode Strict b = Ok (text "Acme")
    /\ utf8_decode Ignore b = Ok (text "Acme").
Proof.
  apply (clean_exif_data_text_tag photo (KStr (text "0th")) photo_0th
           (KInt 271) (text "Acme") eq_refl eq_refl eq_refl eq_refl eq_refl
           eq_refl).
  unfold unicode. repeat constructor.
Defined.

(** X2 on the photograph: the oversized sensitivity is dropped, and
    nothing appears under the empty GPS group. *)
Lemma drops_witness :
  tree_tag (clean_exif_data (PDict photo)) (KStr (text "Exif")) (KInt 34855)
  = None
  /\ tree_tag (clean_exif_data (PDict photo)) (KStr (text "GPS")) (KInt 1)
     = None.
Proof.
  split.
  - exact (clean_exif_data_drops photo (KStr (text "Exif")) (KInt 34855)
             eq_refl photo_groups_wf (or_intror eq_refl)).
  - exact (clean_exif_data_drops photo (KStr (text "GPS")) (KInt 1)
             eq_refl photo_groups_wf).
Defined.

(** X3 on the photograph. *)
Lemma shape_invariant_witness :
  photo_cleaned <> [] /\ NoDup (keys photo_cleaned).
Proof.
  destruct (clean_exif_data_shape_invariant (PDict photo) photo_cleaned
              clean_photo) as (Hne & Hnd & _).
  split; assumption.
Defined.

(** X4 on the photograph: the 0th group of the result comes from a 0th
    group of the input. *)
Lemma provenance_witness :
  exists ifd, In (KStr (text "0th"), PDict ifd) photo.
Proof.
  destruct (clean_exif_data_provenance (PDict photo) photo_cleaned clean_photo)
    as (groups & Hg & Hall).
  injection Hg as <-.
  destruct (Hall (KStr (text "0th")) (PDict cleaned_0th)) as (ifd & Hin & _).
  - left. reflexivity.
  - now exists ifd.
Defined.

(** X6 on the photograph, not yet sanitized. *)
Lemma resolved_after_sanitizing_witness :
  get_creation_datetime_from_exif never_equal (clean_exif_data (PDict photo))
  = PStr (text "2020:01:01 10:00:00").
Proof.
  exact (resolved_after_sanitizing never_equal photo eq_refl photo_groups_wf eq_refl
           eq_refl photo_texts_unicode).
Defined.

(** X9 on the photograph. *)
Lemma exif_count_witness :
  (1 <= List.length photo_cleaned <= exif_count photo_cleaned)%nat.
Proof.
  exact (exif_count_positive (PDict photo) photo_cleaned clean_photo).
Defined.

(** X10 on the photograph. *)
Lemma backup_fields_witness :
  exists camera_info technical_info,
    camera_and_technical_info never_equal always_differs no_repr photo_cleaned
    = Ok (camera_info, technical_info)
    /\ (forall k v, In (k, v) camera_info ->
          text_int_or_pair v = true
          /\ In k (List.map (fun t => KStr (snd t)) camera_tags))
    /\ (forall k v, In (k, v) technical_info ->
          text_or_int v = true
          /\ In k (List.map (fun t => KStr (snd t)) tech_tags)).
Proof.
  exact (backup_fields_json_safe never_equal always_differs no_repr
           (PDict photo) photo_cleaned clean_photo).
Defined.

(** The sanitizer returns this tree as it is; its 0th entry is an integer,
    the membership test of the camera block raises on it, and the
    exposure time of its Exif group is not recorded. *)
Example stray_0th_backup :
  clean_exif_data (PDict stray_0th) = PDict stray_0th
  /\ camera_and_technical_info never_equal always_differs no_repr stray_0th
     = Raise TypeError.
Proof. split; reflexivity. Qed.

(** X11 on the photograph: the exposure time (1, 0) is recorded as 1. *)
Lemma fraction_witness :
  exists camera_info technical_info,
    camera_and_technical_info never_equal always_differs no_repr photo_cleaned
    = Ok (camera_info, technical_info)
    /\ dict_get technical_info (KStr (text "exposure_time"))
       = Some (PStr (text "1")).
Proof.
  apply (technical_info_fraction never_equal always_differs no_repr
           (PDict photo) photo_cleaned cleaned_exif
           ExposureTime (text "exposure_time") 1 0).
  - exact clean_photo.
  - reflexivity.
  - reflexivity.
  - right. right. left. reflexivity.
  - reflexivity.
Defined.

(** X12 on the photograph. *)
Lemma datetime_original_witness :
  exists s camera_info technical_info,
    utf8_decode Ignore (bytes_of "2020:01:01 10:00:00") = Ok s
    /\ camera_and_technical_info never_equal always_differs no_repr
         photo_cleaned
       = Ok (camera_info, technical_info)
    /\ dict_get technical_info (KStr (text "datetime_original"))
       = Some (PStr (strip s))
    /\ (get_creation_datetime_from_exif never_equal (PDict photo_cleaned)
        = PStr (strip s)
        <-> strip s <> [] /\ strip s <> placeholder).
Proof.
  exact (datetime_original_agrees never_equal always_differs no_repr
           (PDict photo) photo_cleaned cleaned_exif
           (bytes_of "2020:01:01 10:00:00") clean_photo eq_refl eq_refl
           eq_refl).
Defined.

(** X13 on the sample image: the resolution and the JFIF version are the
    other info, the EXIF is the sanitized photograph. *)
Lemma bundle_witness :
  dict_get (other_info (extract_all_metadata load_photo (Ok jpeg_info)))
    (KStr (text "dpi")) = Some (PTuple [PInt 72; PInt 72])
  /\ dict_get (other_info (extract_all_metadata load_photo (Ok jpeg_info)))
       (KStr (text "icc_profile")) = None
  /\ exif (extract_all_metadata load_photo (Ok jpeg_info)) = PDict photo_cleaned.
Proof.
  destruct (extract_all_metadata_bundle load_photo jpeg_info eq_refl)
    as (Hother & _ & _).
  split; [|split].
  - exact (Hother (KStr (text "dpi"))).
  - exact (Hother (KStr (text "icc_profile"))).
  - exact clean_photo.
Defined.

(** X14 on the photograph, with and without a GPS group. *)
Lemma resolver_reads_witness :
  get_creation_datetime_from_exif never_equal (PDict photo_cleaned)
  = get_creation_datetime_from_exif never_equal (PDict photo_with_gps).
Proof.
  apply (get_creation_datetime_from_exif_reads never_equal photo_cleaned
           photo_with_gps);
    [discriminate | discriminate | reflexivity | reflexivity].
Defined.
